(** * momoko: the query queue, the fan-out batch runner and the readiness poller

    A shallow embedding of [momoko/queue.py] (class [DbQueryQueue]) and of
    the classes [BatchQuery], [Poller] and [OrderedDict] of [momoko/utils.py],
    followed by the properties of the specification that concern them.

    Conventions of the embedding:
    - a Python call that may raise returns a [res]: [Ret v] or [Raise e];
    - a method of an object is a function on the object's state that returns
      the result, the new state and the list of the externally visible
      actions it performed, in the order it performed them ([event]);
    - [time.time()] and [uuid.uuid4()] are read by the caller and passed in
      (arguments [now] and [key]); times are integers (clock ticks);
    - user callbacks, [psycopg2.extensions.adapt], the [%] operator of
      [str] and, once [poll()] has raised, the connection's [fileno()] and
      the event loop's [update_handler] are the environment: variables of
      the sections below. *)

From stdpp Require Import base option strings list gmap pretty.
From Stdlib Require Import Ascii ZArith Lia.

Local Open Scope Z_scope.

(** ** Python exceptions and results *)

(** The exception classes the two modules can meet. [SystemExit] and
    [KeyboardInterrupt] derive from [BaseException] only; every other class
    derives from [Exception]. The psycopg2 classes keep their hierarchy:
    [InterfaceError] and [DatabaseError] derive from [Error], and
    [OperationalError] from [DatabaseError]. *)
Inductive exc_class :=
  | SystemExit
  | KeyboardInterrupt
  | TypeError
  | ValueError
  | KeyError
  | AttributeError
  | AssertionError
  | UnboundLocalError
  | OtherException
  | Psycopg2Warning
  | Psycopg2Error
  | Psycopg2InterfaceError
  | Psycopg2DatabaseError
  | Psycopg2OperationalError.

Record exn := Exn { exn_class : exc_class; exn_message : string }.

(** [isinstance(e, Exception)] *)
Definition isinstance_Exception (e : exn) : bool :=
  match exn_class e with
  | SystemExit | KeyboardInterrupt => false
  | _ => true
  end.

(** [isinstance(e, (psycopg2.Warning, psycopg2.Error))] *)
Definition isinstance_psycopg2 (e : exn) : bool :=
  match exn_class e with
  | Psycopg2Warning | Psycopg2Error | Psycopg2InterfaceError
  | Psycopg2DatabaseError | Psycopg2OperationalError => true
  | _ => false
  end.

(** [isinstance(e, psycopg2.DatabaseError)] *)
Definition isinstance_DatabaseError (e : exn) : bool :=
  match exn_class e with
  | Psycopg2DatabaseError | Psycopg2OperationalError => true
  | _ => false
  end.

Inductive res (A : Type) :=
  | Ret (a : A)
  | Raise (e : exn).
Arguments Ret {A} a.
Arguments Raise {A} e.

Definition res_bind {A B} (r : res A) (f : A -> res B) : res B :=
  match r with
  | Ret a => f a
  | Raise e => Raise e
  end.

(** ** Python values *)

(** The values a caller passes as query parameters, and the rows a cursor
    gives back. A [unicode] object is its list of code points. *)
Inductive pyvalue :=
  | PyNone
  | PyInt (n : Z)
  | PyStr (s : string)
  | PyUnicode (u : list N).

Definition byte_of (n : N) : ascii := ascii_of_N n.

(** One code point in UTF-8. *)
Definition utf8_char (c : N) : list ascii :=
  (if c <? 128 then [byte_of c]
   else if c <? 2048 then [byte_of (192 + c / 64); byte_of (128 + c mod 64)]
   else if c <? 65536 then
     [byte_of (224 + c / 4096); byte_of (128 + (c / 64) mod 64);
      byte_of (128 + c mod 64)]
   else
     [byte_of (240 + c / 262144); byte_of (128 + (c / 4096) mod 64);
      byte_of (128 + (c / 64) mod 64); byte_of (128 + c mod 64)])%N.

(** [u.encode('utf-8')] *)
Definition encode_utf8 (u : list N) : string :=
  String.string_of_list_ascii (concat (map utf8_char u)).

(** The loop body [if isinstance(p, unicode): p = p.encode('utf-8')]. *)
Definition encode_if_unicode (v : pyvalue) : pyvalue :=
  match v with
  | PyUnicode u => PyStr (encode_utf8 u)
  | _ => v
  end.

(** What a cursor method returns: [fetchone()] gives a row or [None],
    [fetchall()] a list of rows. *)
Inductive fetched :=
  | FetchedOne (row : option (list pyvalue))
  | FetchedAll (rows : list (list pyvalue)).

Record cursor := Cursor_ {
  cursor_id : nat;
  fetchone_result : res fetched;
  fetchall_result : res fetched
}.

(** What the database layer hands to the callback of an [execute]: a cursor
    or, when the connection failed, the error object ([Poller] calls
    [callback(error)]). *)
Inductive dbresult :=
  | Cursor (c : cursor)
  | DbError (e : exn).

(** ** The ordered dictionary

    [OrderedDict] of [momoko/utils.py] (and of [collections]): a dictionary
    that iterates in insertion order, here the list of its items in that
    order. *)
Module OrderedDict.

Definition t (V : Type) := list (string * V).

Definition keys {V} (d : t V) : list string := d.*1.
Definition values {V} (d : t V) : list V := d.*2.

(** [bool(d)] *)
Definition nonempty {V} (d : t V) : bool :=
  match d with [] => false | _ :: _ => true end.

(** [d[k] = v]: a new key goes to the end, a present key keeps its
    place and takes the new value. *)
Fixpoint setitem {V} (d : t V) (k : string) (v : V) : t V :=
  match d with
  | [] => [(k, v)]
  | (k', v') :: d' =>
      if decide (k' = k) then (k', v) :: d'
      else (k', v') :: setitem d' k v
  end.

(** [d.popitem(last=False)]: [None] stands for the [KeyError] on an empty
    dictionary. *)
Definition popitem_first {V} (d : t V) : option (string * V * t V) :=
  match d with
  | [] => None
  | (k, v) :: d' => Some (k, v, d')
  end.

(** [d.pop(k)]: [None] stands for the [KeyError] on a missing key. *)
Fixpoint pop {V} (d : t V) (k : string) : option (V * t V) :=
  match d with
  | [] => None
  | (k', v') :: d' =>
      if decide (k' = k) then Some (v', d')
      else match pop d' k with
           | Some (v, d'') => Some (v, (k', v') :: d'')
           | None => None
           end
  end.

(** [d.popitem(last)]: the key is the last one of the iteration
    ([reversed(self).next()]) or the first one ([iter(self).next()]), and
    the value is [self.pop(key)]; [None] stands for the [KeyError] on an empty
    dictionary. *)
Definition popitem {V} (last_key : bool) (d : t V) : option (string * V * t V) :=
  match (if last_key then last (keys d) else head (keys d)) with
  | None => None
  | Some k =>
      match pop d k with
      | Some (v, d') => Some (k, v, d')
      | None => None
      end
  end.

End OrderedDict.

(** ** Actions on the outside world *)

(** A user callback is known by an identifier; what it does when called is
    the environment's business ([cb_run] below). A Python [None] in the place
    of a callback is [None] here. *)
Definition cbid := nat.

Inductive callback_arg :=
  | NoArgs                                    (* [callback()] *)
  | ArgNone                                   (* [callback(None)] *)
  | ArgData (d : fetched)                     (* [callback(data)] *)
  | ArgError (e : exn)                        (* [callback(error)] *)
  | ArgCursors (m : gmap string dbresult)     (* [callback(self._args)] *)
  | ArgCursorList (l : list dbresult).        (* [callback(self._cursors)] *)

(** The callbacks the two modules build themselves and hand on. *)
Inductive continuation :=
  | GenCallback (uid : string)                (* [yield gen.Callback(uid)] *)
  | PerformCallbacks (callbacks : list cbid)  (* [partial(self.perform_callbacks, callbacks=...)] *)
  | BatchCollect (key : string)               (* [partial(self._collect, key)] *)
  | PartialNone (cb : cbid)                   (* [partial(callback, None)] *)
  | PollerMethod                              (* [self.poller] *)
  | FlushMethod                               (* [self.execute_noresult_queue] *)
  | IoCallback                                (* [self._io_callback] *)
  | ChainCollect                              (* [self._collect] of a chain *)
  | TimeoutCheckMethod                        (* [self.noresult_timeout_check] *)
  | PurgeMethod.                              (* [self.purge_expired] *)

Inductive event :=
  | DbExecute (sql : string) (k : continuation)   (* [self._execute(sql, callback=k)] *)
  | Call (cb : cbid) (arg : callback_arg)         (* a user callback is called *)
  | Print (tag : string) (message : string)       (* [print tag, e.message] *)
  | AddCallback (k : continuation)                (* [ioloop.add_callback(k)] *)
  | AddTimeout (deadline : Z) (k : continuation)  (* [ioloop.add_timeout(deadline, k)] *)
  | UpdateHandler (fd : Z) (events : Z)           (* [ioloop.update_handler(fd, events)] *)
  | AddHandler (fd : Z) (k : continuation) (events : Z)
  | RemoveHandler (fd : Z)
  | DbExecuteWith (sql : string) (parameters : list pyvalue) (k : continuation)
  | PeriodicStart (k : continuation) (callback_time : Z).
                              (* [PeriodicCallback(k, callback_time).start()] *)

(** ** Methods as state transformers *)

Definition M (S A : Type) : Type := S -> res A * S * list event.

Definition mret {S A} (a : A) : M S A := fun s => (Ret a, s, []).

Definition mbind {S A B} (m : M S A) (f : A -> M S B) : M S B :=
  fun s =>
    match m s with
    | (Ret a, s1, t1) => let '(r, s2, t2) := f a s1 in (r, s2, t1 ++ t2)
    | (Raise e, s1, t1) => (Raise e, s1, t1)
    end.

Definition raise {S A} (e : exn) : M S A := fun s => (Raise e, s, []).
Definition lift {S A} (r : res A) : M S A := fun s => (r, s, []).
Definition emit {S} (ev : event) : M S unit := fun s => (Ret tt, s, [ev]).
Definition get {S} : M S S := fun s => (Ret s, s, []).
Definition modify {S} (f : S -> S) : M S unit := fun s => (Ret tt, f s, []).

(** [try: body  except Exception as e: handler(e)] *)
Definition try_except {S A} (body : M S A) (handler : exn -> M S A) : M S A :=
  fun s =>
    match body s with
    | (Ret a, s1, t1) => (Ret a, s1, t1)
    | (Raise e, s1, t1) =>
        if isinstance_Exception e
        then let '(r, s2, t2) := handler e s1 in (r, s2, t1 ++ t2)
        else (Raise e, s1, t1)
    end.

(** [for x in l: body(x)] *)
Fixpoint for_each {S X} (l : list X) (body : X -> M S unit) : M S unit :=
  match l with
  | [] => mret tt
  | x :: l' => mbind (body x) (fun _ => for_each l' body)
  end.

Declare Scope py_scope.
Delimit Scope py_scope with py.
Notation "x <- m ;; k" := (mbind m (fun x => k))
  (at level 100, m at next level, right associativity) : py_scope.
Notation "m ;;; k" := (mbind m (fun _ => k))
  (at level 100, right associativity) : py_scope.

(** ** The [%] operator of [str]

    The right operand of [sql_tmpl % adapted] in [format_sql] is a dictionary
    or a tuple of already quoted strings. *)
Inductive fmt_args :=
  | FmtDict (d : gmap string string)
  | FmtTuple (l : list string).

(** A fragment of Python 2's [str.__mod__], enough to run examples: the
    directives [%%], [%s] with a tuple and [%(name)s] with a dictionary,
    and the errors of an unknown conversion character, of a missing key or
    argument and of an unfinished directive. A template that uses flags,
    widths, precisions or another conversion, or [%s] with a dictionary, is
    outside the fragment ([None]). *)
Inductive fmt_state :=
  | Text
  | Directive
  | InKey (depth : nat) (key : string)
  | Conv (v : string).

Definition directive_char (c : ascii) : bool :=
  bool_decide (c ∈ String.list_ascii_of_string "#0- +123456789*.hlLdiouxXeEfFgGcr%").

Definition snoc_char (s : string) (c : ascii) : string :=
  s +:+ String c EmptyString.

Fixpoint py_mod_go (st : fmt_state) (dict : option (gmap string string))
    (pos : list string) (s acc : string) : option (res string) :=
  match s with
  | EmptyString =>
      match st with
      | Text =>
          match dict, pos with
          | None, _ :: _ =>
              Some (Raise (Exn TypeError
                "not all arguments converted during string formatting"))
          | _, _ => Some (Ret acc)
          end
      | Directive | Conv _ => Some (Raise (Exn ValueError "incomplete format"))
      | InKey _ _ => Some (Raise (Exn ValueError "incomplete format key"))
      end
  | String c s' =>
      match st with
      | Text =>
          if decide (c = "%"%char) then py_mod_go Directive dict pos s' acc
          else py_mod_go Text dict pos s' (snoc_char acc c)
      | Directive =>
          if decide (c = "%"%char) then py_mod_go Text dict pos s' (acc +:+ "%")
          else if decide (c = "("%char) then
            match dict with
            | None => Some (Raise (Exn TypeError "format requires a mapping"))
            | Some _ => py_mod_go (InKey 0 "") dict pos s' acc
            end
          else
            match dict, pos with
            | None, [] =>
                Some (Raise (Exn TypeError "not enough arguments for format string"))
            | None, v :: pos' =>
                if decide (c = "s"%char) then py_mod_go Text dict pos' s' (acc +:+ v)
                else if directive_char c then None
                else Some (Raise (Exn ValueError "unsupported format character"))
            | Some _, _ =>
                if decide (c = "s"%char) then None
                else if directive_char c then None
                else Some (Raise (Exn ValueError "unsupported format character"))
            end
      | InKey depth key =>
          if decide (c = ")"%char) then
            match depth with
            | O =>
                match dict with
                | Some d =>
                    match d !! key with
                    | Some v => py_mod_go (Conv v) dict pos s' acc
                    | None => Some (Raise (Exn KeyError key))
                    end
                | None => Some (Raise (Exn TypeError "format requires a mapping"))
                end
            | S depth' => py_mod_go (InKey depth' (snoc_char key c)) dict pos s' acc
            end
          else if decide (c = "("%char) then
            py_mod_go (InKey (S depth) (snoc_char key c)) dict pos s' acc
          else py_mod_go (InKey depth (snoc_char key c)) dict pos s' acc
      | Conv v =>
          if decide (c = "s"%char) then py_mod_go Text dict pos s' (acc +:+ v)
          else if directive_char c then None
          else Some (Raise (Exn ValueError "unsupported format character"))
      end
  end.

Definition py_mod_fragment (tmpl : string) (args : fmt_args) : option (res string) :=
  match args with
  | FmtDict d => py_mod_go Text (Some d) [] tmpl ""
  | FmtTuple l => py_mod_go Text None l tmpl ""
  end.

(** The fragment as a total function, to stand for [%] in examples; the
    examples stay inside the fragment. *)
Definition py_mod (tmpl : string) (args : fmt_args) : res string :=
  default (Raise (Exn OtherException "template outside the modelled fragment"))
          (py_mod_fragment tmpl args).

(** An instance of [adapt(v).getquoted()] for the examples: [None] is
    [NULL], an integer its decimal digits, a string is put between single
    quotes with every single quote in it doubled. *)
Fixpoint double_quotes (s : string) : string :=
  match s with
  | EmptyString => EmptyString
  | String c s' =>
      if decide (c = "'"%char) then String c (String c (double_quotes s'))
      else String c (double_quotes s')
  end.

Definition adapt_example (v : pyvalue) : res string :=
  match v with
  | PyNone => Ret "NULL"
  | PyInt n => Ret (pretty n)
  | PyStr s => Ret ("'" +:+ double_quotes s +:+ "'")
  | PyUnicode u => Ret ("'" +:+ double_quotes (encode_utf8 u) +:+ "'")
  end.

(** A callback environment for the examples: every callback returns, except
    callback 13, which raises an [Exception], and callback 99, which raises
    [SystemExit]. *)
Definition cb_example (cb : cbid) (arg : callback_arg) : res unit :=
  if decide (cb = 13%nat) then Raise (Exn OtherException "boom")
  else if decide (cb = 99%nat) then Raise (Exn SystemExit "exit")
  else Ret tt.

(** ** [DbQueryQueue.format_sql] *)

(** The [params] argument: [None], a dictionary, a list, a tuple, or any
    other value. *)
Inductive params :=
  | ParamsNone
  | ParamsDict (d : gmap string pyvalue)
  | ParamsList (l : list pyvalue)
  | ParamsTuple (l : list pyvalue)
  | ParamsOther (v : pyvalue).

(** [bool(params)] *)
Definition params_truthy (p : params) : bool :=
  match p with
  | ParamsNone => false
  | ParamsDict d => negb (bool_decide (size d = 0%nat))
  | ParamsList l | ParamsTuple l => negb (bool_decide (length l = 0%nat))
  | ParamsOther PyNone => false
  | ParamsOther (PyInt n) => negb (n =? 0)
  | ParamsOther (PyStr s) => negb (bool_decide (s = ""))
  | ParamsOther (PyUnicode u) => negb (bool_decide (length u = 0%nat))
  end.

Section FormatSql.

Variable adapt_getquoted : pyvalue -> res string.
Variable str_mod : string -> fmt_args -> res string.

(** [for k in params.keys(): ... adapted[k] = adapt(params[k]).getquoted()]
    over the items still to visit. *)
Fixpoint adapt_items (items : list (string * pyvalue))
    (adapted : gmap string string) : res (gmap string string) :=
  match items with
  | [] => Ret adapted
  | (k, v) :: items' =>
      res_bind (adapt_getquoted (encode_if_unicode v)) (fun q =>
      adapt_items items' (<[k := q]> adapted))
  end.

(** [for p in params: ... adapted.append(adapt(p).getquoted())] *)
Fixpoint adapt_seq (l : list pyvalue) (adapted : list string)
    : res (list string) :=
  match l with
  | [] => Ret adapted
  | p :: l' =>
      res_bind (adapt_getquoted (encode_if_unicode p)) (fun q =>
      adapt_seq l' (adapted ++ [q]))
  end.

Definition format_sql (sql_tmpl : string) (p : params) : res string :=
  if params_truthy p then
    match p with
    | ParamsDict d =>
        res_bind (adapt_items (map_to_list d) ∅) (fun adapted =>
        (* sql = sql_tmpl % adapted, inside the branch *)
        res_bind (str_mod sql_tmpl (FmtDict adapted)) (fun sql =>
        (* sql = sql_tmpl % adapted, after the branch *)
        str_mod sql_tmpl (FmtDict adapted)))
    | ParamsList l | ParamsTuple l =>
        res_bind (adapt_seq l []) (fun adapted =>
        str_mod sql_tmpl (FmtTuple adapted))
    | ParamsNone | ParamsOther _ =>
        (* [adapted] was never bound *)
        Raise (Exn UnboundLocalError
                 "local variable 'adapted' referenced before assignment")
    end
  else Ret sql_tmpl.

(** What the claim of a double substitution describes: the template is
    substituted, and the text that results is substituted again. *)
Definition substituted_twice (sql_tmpl : string) (d : gmap string pyvalue)
    : res string :=
  res_bind (adapt_items (map_to_list d) ∅) (fun adapted =>
  res_bind (str_mod sql_tmpl (FmtDict adapted)) (fun sql =>
  str_mod sql (FmtDict adapted))).

(** A single substitution. *)
Definition substituted_once (sql_tmpl : string) (d : gmap string pyvalue)
    : res string :=
  res_bind (adapt_items (map_to_list d) ∅) (fun adapted =>
  str_mod sql_tmpl (FmtDict adapted)).

End FormatSql.

(** ** [DbQueryQueue] *)

(** The [command] of a queued query: [execute] asserts that it is
    ['fetchall'] or ['fetchone']. *)
Inductive command := Fetchall | Fetchone.

Definition parse_command (name : string) : option command :=
  if decide (name = "fetchall") then Some Fetchall
  else if decide (name = "fetchone") then Some Fetchone
  else None.

(** The tuple [(sql, callback, key, command, expires_at)] of the result
    queue. *)
Record entry := Entry {
  e_sql : string;
  e_callback : option cbid;
  e_uid : string;
  e_command : command;
  e_expires_at : Z
}.

(** The pair [(sql, callback)] of the no-result queue. *)
Definition statement : Type := string * option cbid.

Record DbQueryQueue := Build {
  poll_timeout : Z;
  queue : OrderedDict.t entry;
  queue_length : Z;
  temp_queries : OrderedDict.t entry;
  noresult_queue : OrderedDict.t statement;
  noresult_poll_timeout : Z;
  noresult_queue_length : Z;
  noresult_last_time : option Z
}.

Definition set_queue (q : OrderedDict.t entry) (s : DbQueryQueue) :=
  Build (poll_timeout s) q (queue_length s) (temp_queries s)
        (noresult_queue s) (noresult_poll_timeout s)
        (noresult_queue_length s) (noresult_last_time s).

Definition set_temp_queries (t : OrderedDict.t entry) (s : DbQueryQueue) :=
  Build (poll_timeout s) (queue s) (queue_length s) t
        (noresult_queue s) (noresult_poll_timeout s)
        (noresult_queue_length s) (noresult_last_time s).

Definition set_noresult_queue (q : OrderedDict.t statement) (s : DbQueryQueue) :=
  Build (poll_timeout s) (queue s) (queue_length s) (temp_queries s)
        q (noresult_poll_timeout s)
        (noresult_queue_length s) (noresult_last_time s).

Definition set_noresult_last_time (t : option Z) (s : DbQueryQueue) :=
  Build (poll_timeout s) (queue s) (queue_length s) (temp_queries s)
        (noresult_queue s) (noresult_poll_timeout s)
        (noresult_queue_length s) t.

(** [DbQueryQueue(db, ioloop, poll_timeout, queue_length,
    noresult_poll_timeout, noresult_queue_length)] *)
Definition init (poll_timeout queue_length noresult_poll_timeout
    noresult_queue_length : Z) : DbQueryQueue :=
  Build poll_timeout [] queue_length [] [] noresult_poll_timeout
        noresult_queue_length None.

(** The line separator of the compound command. *)
Definition newline : string := String (ascii_of_nat 10) EmptyString.

(** [getattr(cursor, command)()]: an error object has no fetch method. *)
Definition getattr_call (r : dbresult) (c : command) : res fetched :=
  match r with
  | Cursor cur =>
      match c with
      | Fetchall => fetchall_result cur
      | Fetchone => fetchone_result cur
      end
  | DbError e =>
      Raise (Exn AttributeError "object has no attribute 'fetchall'/'fetchone'")
  end.

(** The loop [while self.queue and i < self.queue_length] of [poller]:
    returns what is left of the queue, and the in-flight dictionary. *)
Fixpoint drain_loop (i queue_length : Z) (queue temp : OrderedDict.t entry)
    : OrderedDict.t entry * OrderedDict.t entry :=
  match queue with
  | [] => (queue, temp)
  | (uid, item) :: rest =>
      if i <? queue_length
      then drain_loop (i + 1) queue_length rest (OrderedDict.setitem temp uid item)
      else (queue, temp)
  end.

(** The loop [while self.noresult_queue] of [execute_noresult_queue]:
    returns what is left of the queue, [callbacks] and [sql_defs]. *)
Fixpoint flush_loop (q : OrderedDict.t statement) (callbacks : list cbid)
    (sql_defs : list string)
    : OrderedDict.t statement * list cbid * list string :=
  match q with
  | [] => (q, callbacks, sql_defs)
  | (uid, (sql, callback)) :: rest =>
      flush_loop rest
        (match callback with Some cb => callbacks ++ [cb] | None => callbacks end)
        (sql_defs ++ [sql])
  end.

Section Methods.

Variable cb_run : cbid -> callback_arg -> res unit.
Variable adapt_getquoted : pyvalue -> res string.
Variable str_mod : string -> fmt_args -> res string.

Local Open Scope py_scope.

(** [callback(arg)]: calling [None] raises [TypeError]. *)
Definition call {S} (callback : option cbid) (arg : callback_arg) : M S unit :=
  match callback with
  | None => raise (Exn TypeError "'NoneType' object is not callable")
  | Some cb => fun s => (cb_run cb arg, s, [Call cb arg])
  end.

Definition execute (sql_tmpl : string) (p : params) (command : string)
    (callback : option cbid) (timeout : Z) (key : string) (now : Z)
    : M DbQueryQueue unit :=
  match parse_command command with
  | None => raise (Exn AssertionError "")
  | Some c =>
      sql <- lift (format_sql adapt_getquoted str_mod sql_tmpl p);;
      let expires_at := now + timeout in
      modify (fun s =>
        set_queue (OrderedDict.setitem (queue s) key
                     (Entry sql callback key c expires_at)) s)
  end.

Definition fetchone sql_tmpl p callback timeout key now :=
  execute sql_tmpl p "fetchone" callback timeout key now.

Definition fetchall sql_tmpl p callback timeout key now :=
  execute sql_tmpl p "fetchall" callback timeout key now.

(** [poller], up to [yield gen.WaitAll(keys)]: [Some keys] when queries
    were submitted and the generator waits for their cursors, [None] when
    nothing was drained and [poller] returned. *)
Definition poller_drain (now : Z) : M DbQueryQueue (option (list string)) :=
  modify (set_temp_queries []);;;
  s <- get;;
  let '(q, t) := drain_loop 0 (queue_length s) (queue s) (temp_queries s) in
  modify (fun s => set_temp_queries t (set_queue q s));;;
  if negb (OrderedDict.nonempty t) then
    emit (AddTimeout (now + poll_timeout s) PollerMethod);;;
    mret None
  else
    for_each (OrderedDict.values t) (fun item =>
      emit (DbExecute (e_sql item) (GenCallback (e_uid item))));;;
    mret (Some (map e_uid (OrderedDict.values t))).

(** The body of [for uid, cursor in zip(keys, cursors)]. *)
Definition deliver_entry (uc : string * dbresult) : M DbQueryQueue unit :=
  let '(uid, cursor) := uc in
  s <- get;;
  match OrderedDict.pop (temp_queries s) uid with
  | None => raise (Exn KeyError uid)
  | Some (item, t) =>
      modify (set_temp_queries t);;;
      try_except
        (data <- lift (getattr_call cursor (e_command item));;
         call (e_callback item) (ArgData data))
        (fun e => emit (Print "DBQUERY-QUEUE:ERROR:" (exn_message e)))
  end.

(** [poller], from the moment [gen.WaitAll(keys)] gives the cursors. *)
Definition poller_deliver (keys : list string) (cursors : list dbresult)
    (now : Z) : M DbQueryQueue unit :=
  for_each (zip keys cursors) deliver_entry;;;
  s <- get;;
  if OrderedDict.nonempty (queue s) then emit (AddCallback PollerMethod)
  else emit (AddTimeout (now + poll_timeout s) PollerMethod).

(** A whole run of [poller] with nothing in between: [wait_all] is what
    [gen.WaitAll] answers, [now] and [later] the two readings of the
    clock. *)
Definition poller (wait_all : list string -> list dbresult) (now later : Z)
    : M DbQueryQueue unit :=
  r <- poller_drain now;;
  match r with
  | None => mret tt
  | Some keys => poller_deliver keys (wait_all keys) later
  end.

(** The loop of [purge_expired] over the items still to visit.
    [functools.partial(callback, None)] raises [TypeError] when
    [callback] is not callable. *)
Fixpoint purge_loop (cur_time : Z) (items : list (string * entry))
    (new_queue : OrderedDict.t entry) : M DbQueryQueue (OrderedDict.t entry) :=
  match items with
  | [] => mret new_queue
  | (k, v) :: rest =>
      if cur_time >? e_expires_at v then
        match e_callback v with
        | None => raise (Exn TypeError "the first argument must be callable")
        | Some cb => emit (AddCallback (PartialNone cb))
        end;;;
        purge_loop cur_time rest new_queue
      else purge_loop cur_time rest (OrderedDict.setitem new_queue k v)
  end.

Definition purge_expired (now : Z) : M DbQueryQueue unit :=
  s <- get;;
  new_queue <- purge_loop now (queue s) [];;
  modify (set_queue new_queue).

Definition execute_noresult (sql_tmpl : string) (p : params)
    (callback : option cbid) (key : string) : M DbQueryQueue unit :=
  sql <- lift (format_sql adapt_getquoted str_mod sql_tmpl p);;
  modify (fun s =>
    set_noresult_queue
      (OrderedDict.setitem (noresult_queue s) key (sql, callback)) s);;;
  s <- get;;
  if Z.of_nat (length (noresult_queue s)) >=? noresult_queue_length s
  then emit (AddCallback FlushMethod)
  else mret tt.

Definition execute_noresult_queue (now : Z) : M DbQueryQueue unit :=
  s <- get;;
  if negb (OrderedDict.nonempty (noresult_queue s)) then mret tt
  else
    let '(q, callbacks, sql_defs) := flush_loop (noresult_queue s) [] [] in
    modify (set_noresult_queue q);;;
    let sql := String.concat (";" +:+ newline) sql_defs in
    emit (DbExecute sql (PerformCallbacks callbacks));;;
    modify (set_noresult_last_time (Some now)).

(** [noresult_timeout_check]; before [start] the last-flush time is
    [None] and the subtraction raises. *)
Definition noresult_timeout_check (now flush_time : Z) : M DbQueryQueue unit :=
  s <- get;;
  match noresult_last_time s with
  | None => raise (Exn TypeError "unsupported operand type(s) for -")
  | Some last =>
      if now - last >? noresult_poll_timeout s
      then execute_noresult_queue flush_time
      else mret tt
  end.

Definition perform_callbacks (cursor : dbresult) (callbacks : list cbid)
    : M DbQueryQueue unit :=
  for_each callbacks (fun cb => call (Some cb) NoArgs).

(** [start]: sets the last-flush time, starts the two periodic callbacks
    that [__init__] made ([noresult_queue_dumper], the timeout check every
    [noresult_poll_timeout * 1000], and [periodic_purge], the expiry sweep
    every [30 * 1000]) and schedules the first [poller]; [now] and [later]
    are the two readings of the clock. *)
Definition start (now later : Z) : M DbQueryQueue unit :=
  modify (set_noresult_last_time (Some now));;;
  s <- get;;
  emit (PeriodicStart TimeoutCheckMethod (noresult_poll_timeout s * 1000));;;
  emit (PeriodicStart PurgeMethod (30 * 1000));;;
  emit (AddTimeout (later + poll_timeout s) PollerMethod).

End Methods.

(** ** The queries of [momoko/utils.py]

    A query given to [BatchQuery] or [QueryChain]: a string, or a list
    [[sql, parameters]] of its own (the two forms of the docstrings). *)
Inductive query :=
  | QueryStr (sql : string)
  | QueryList (sql : string) (parameters : list pyvalue).

(** ** [BatchQuery] of [momoko/utils.py] *)
Module BatchQuery.

(** [if isinstance(query, str): query = [query, ()]] *)
Definition as_list (q : query) : string * list pyvalue :=
  match q with
  | QueryStr sql => (sql, [])
  | QueryList sql parameters => (sql, parameters)
  end.

Record t := Build {
  _callback : option cbid;
  _queries : gmap string (string * list pyvalue);
  _args : gmap string dbresult;
  _size : Z
}.

(** [self.execute] applied to the elements of a stored query: the SQL,
    the parameters and [partial(self._collect, key)]. *)
Definition submit (kq : string * (string * list pyvalue)) : event :=
  DbExecuteWith kq.2.1 kq.2.2 (BatchCollect kq.1).

(** [BatchQuery(db, queries, callback)]: the new object and the queries it
    submits. *)
Definition init (queries : gmap string query) (callback : option cbid)
    : t * list event :=
  let stored := as_list <$> queries in
  (Build callback stored ∅ (Z.of_nat (size queries)),
   submit <$> map_to_list stored).

Section Methods.

Variable cb_run : cbid -> callback_arg -> res unit.

Local Open Scope py_scope.

Definition _collect (key : string) (cursor : dbresult) : M t unit :=
  modify (fun s =>
    Build (_callback s) (_queries s) (_args s) (_size s - 1));;;
  modify (fun s =>
    Build (_callback s) (_queries s) (<[key := cursor]> (_args s)) (_size s));;;
  s <- get;;
  if negb (_size s =? 0) then mret tt
  else
    match _callback s with
    | None => mret tt
    | Some cb => call cb_run (Some cb) (ArgCursors (_args s))
    end.

(** The completions of the submitted queries, one after the other:
    [done] lists the keys with their cursors in the order in which the
    database layer calls the collectors. *)
Definition completions (done : list (string * dbresult)) : M t unit :=
  for_each done (fun kc => _collect kc.1 kc.2).

End Methods.

End BatchQuery.

(** ** [QueryChain] of [momoko/utils.py] *)
Module QueryChain.

(** [_queries] holds the queries still to run, the next one first (the
    source keeps the list reversed and pops from its end). *)
Record t := Build {
  _callback : option cbid;
  _cursors : list dbresult;
  _queries : list query
}.

(** [if isinstance(query, str): query = [query]], then
    [self._db.execute] on its elements with [callback=self._collect]. *)
Definition submit (q : query) : event :=
  match q with
  | QueryStr sql => DbExecuteWith sql [] ChainCollect
  | QueryList sql parameters => DbExecuteWith sql parameters ChainCollect
  end.

Section Methods.

Variable cb_run : cbid -> callback_arg -> res unit.

Local Open Scope py_scope.

Definition _collect (cursor : option dbresult) : M t unit :=
  match cursor with
  | Some c =>
      modify (fun s => Build (_callback s) (_cursors s ++ [c]) (_queries s))
  | None => mret tt
  end;;;
  s <- get;;
  match _queries s with
  | [] =>
      match _callback s with
      | Some cb => call cb_run (Some cb) (ArgCursorList (_cursors s))
      | None => mret tt
      end
  | q :: rest =>
      modify (fun s => Build (_callback s) (_cursors s) rest);;;
      emit (submit q)
  end.

(** [QueryChain(db, queries, callback)] *)
Definition init (queries : list query) (callback : option cbid)
    : res unit * t * list event :=
  _collect None (Build callback [] queries).

(** A chain and the arrival of the cursors of its queries, one after the
    other: the database layer calls [self._collect] with each of them. *)
Definition run (queries : list query) (callback : option cbid)
    (cursors : list dbresult) : res unit * t * list event :=
  mbind (_collect None)
        (fun _ => for_each cursors (fun c => _collect (Some c)))
        (Build callback [] queries).

End Methods.

End QueryChain.

(** ** [Poller] of [momoko/utils.py] *)
Module Poller.

(** [psycopg2.extensions.POLL_OK], [POLL_READ], [POLL_WRITE] and tornado's
    [IOLoop.READ], [IOLoop.WRITE]. *)
Definition POLL_OK : Z := 0.
Definition POLL_READ : Z := 1.
Definition POLL_WRITE : Z := 2.
Definition READ : Z := 1.
Definition WRITE : Z := 4.

Record t := Build {
  _fileno : Z;
  _callbacks : list cbid
}.

Section Methods.

Variable cb_run : cbid -> callback_arg -> res unit.

(** Once [poll()] has raised, the connection may be closed and the
    descriptor is not registered with the event loop: what
    [self._connection.fileno()] and [self._ioloop.update_handler(fd, events)]
    do then, each of them possibly raising. While [poll()] returns a state
    the connection is open and [fileno()] gives its descriptor,
    [_fileno]. *)
Variable fileno : res Z.
Variable update_handler : Z -> Z -> res unit.

Local Open Scope py_scope.

(** [_update_handler], given what [self._connection.poll()] does. In the
    [except] clause the argument [self._connection.fileno()] is evaluated
    first, then [update_handler] is called, outside any [try]: an
    exception of either leaves [_update_handler] before the loop over the
    callbacks. *)
Definition _update_handler (poll : res Z) : M t unit :=
  s <- get;;
  match poll with
  | Raise error =>
      if isinstance_psycopg2 error then
        (if negb (isinstance_DatabaseError error)
         then fd <- lift fileno;;
              emit (UpdateHandler fd 0);;;
              lift (update_handler fd 0)
         else mret tt);;;
        if negb (bool_decide (length (_callbacks s) = 0%nat)) then
          for_each (_callbacks s) (fun callback =>
            try_except
              (call cb_run (Some callback) (ArgError error))
              (fun e => emit (Print "DBQUERY-POLLER:CALLBACK_ERROR:"
                                    (exn_message e))))
        else mret tt
      else raise error
  | Ret state =>
      if state =? POLL_OK then
        for_each (_callbacks s) (fun callback =>
          call cb_run (Some callback) NoArgs)
      else if state =? POLL_READ then
        emit (AddHandler (_fileno s) IoCallback READ)
      else if state =? POLL_WRITE then
        emit (AddHandler (_fileno s) IoCallback WRITE)
      else raise (Exn OtherException "poll() returned an unknown state")
  end.

Definition _io_callback (poll : res Z) : M t unit :=
  s <- get;;
  emit (RemoveHandler (_fileno s));;;
  _update_handler poll.

(** Whether [poll] leaves the descriptor registered with the event loop:
    it does when the state is [POLL_READ] or [POLL_WRITE]. *)
Definition waits (poll : res Z) : bool :=
  match poll with
  | Ret state => (state =? POLL_READ) || (state =? POLL_WRITE)
  | Raise _ => false
  end.

(** The life of a poller. [__init__] calls [_update_handler]; as long as
    the descriptor is registered, the event loop calls [_io_callback] when
    it becomes ready. [polls] lists what the successive calls of [poll()]
    do; [first] tells whether the next one is that of [__init__]. *)
Fixpoint drive_from (first : bool) (polls : list (res Z)) : M t unit :=
  match polls with
  | [] => mret tt
  | poll :: rest =>
      (if first then _update_handler poll else _io_callback poll);;;
      if waits poll then drive_from false rest else mret tt
  end.

Definition drive (polls : list (res Z)) : M t unit := drive_from true polls.

End Methods.

End Poller.

(** ** Reading a list of events *)

(** The user callbacks called, with their arguments, in order. *)
Definition calls (evs : list event) : list (cbid * callback_arg) :=
  omap (fun ev => match ev with Call cb arg => Some (cb, arg) | _ => None end) evs.

(** The commands submitted to the database, in order. *)
Definition submitted (evs : list event) : list string :=
  omap (fun ev => match ev with
                  | DbExecute sql _ => Some sql
                  | DbExecuteWith sql _ _ => Some sql
                  | _ => None
                  end) evs.

(** The callbacks handed to [ioloop.add_callback], in order. *)
Definition scheduled (evs : list event) : list continuation :=
  omap (fun ev => match ev with AddCallback k => Some k | _ => None end) evs.

(** ** Vocabulary of the properties *)

(** A result queue as [execute] builds it: no key twice, and every entry
    filed under its own id. *)
Definition queue_wf (q : OrderedDict.t entry) : Prop :=
  NoDup (OrderedDict.keys q) /\ Forall (fun kv => e_uid kv.2 = kv.1) q.

(** The continuation call that delivering [item] with the database result
    [r] owes: none when the extraction raises or there is no callback. *)
Definition delivery (ir : string * entry * dbresult) : option (cbid * callback_arg) :=
  match getattr_call ir.2 (e_command ir.1.2), e_callback ir.1.2 with
  | Ret data, Some cb => Some (cb, ArgData data)
  | _, _ => None
  end.

(** The failure that delivering [item] with [r] meets, if any: of the
    extraction, of calling [None], or of the callback. *)
Definition delivery_failure (cb_run : cbid -> callback_arg -> res unit)
    (ir : string * entry * dbresult) : option exn :=
  match getattr_call ir.2 (e_command ir.1.2) with
  | Raise x => Some x
  | Ret data =>
      match e_callback ir.1.2 with
      | None => Some (Exn TypeError "'NoneType' object is not callable")
      | Some cb =>
          match cb_run cb (ArgData data) with
          | Raise x => Some x
          | Ret _ => None
          end
      end
  end.

(** What delivering one entry does outside: the continuation is called
    when the extraction gave data and there is a callback, and a failure is
    printed. *)
Definition delivery_events (cb_run : cbid -> callback_arg -> res unit)
    (ir : string * entry * dbresult) : list event :=
  match delivery ir with
  | Some (cb, arg) => [Call cb arg]
  | None => []
  end ++
  match delivery_failure cb_run ir with
  | Some x => [Print "DBQUERY-QUEUE:ERROR:" (exn_message x)]
  | None => []
  end.

(** Every failure of the delivery is an instance of [Exception]. *)
Definition delivery_contained (cb_run : cbid -> callback_arg -> res unit)
    (ir : string * entry * dbresult) : Prop :=
  forall x, delivery_failure cb_run ir = Some x -> isinstance_Exception x = true.

(** What [poller] does last: it runs again at once when the queue still
    holds entries, after [poll_timeout] otherwise. *)
Definition reschedule (later : Z) (s : DbQueryQueue) : event :=
  if OrderedDict.nonempty (queue s) then AddCallback PollerMethod
  else AddTimeout (later + poll_timeout s) PollerMethod.

(** The ids the queue object holds: pending, then in flight. *)
Definition live (s : DbQueryQueue) : list string :=
  OrderedDict.keys (queue s) ++ OrderedDict.keys (temp_queries s).

(** The ids that [s] holds and [s'] no longer does. *)
Definition left_between (s s' : DbQueryQueue) : list string :=
  filter (fun k => k ∉ live s') (live s).

(** The queue object with its history: the ids [uuid4] has given out so far
    and the ids that have left the object. *)
Record history := History {
  now_state : DbQueryQueue;
  issued : list string;
  retired : list string
}.

(** The history after a step that gave out the ids [new] and left the
    object in state [s']: the ids that [s'] no longer holds have left. *)
Definition next_history (h : history) (new : list string) (s' : DbQueryQueue)
    : history :=
  History s' (new ++ issued h) (retired h ++ left_between (now_state h) s').

(** One step of the life of a queue object: an enqueue under an id that
    [uuid4] has never given out, the drain of [poller], the delivery of one
    entry of the batch, or an expiry sweep. Steps may come in any order, so
    that enqueues and sweeps fall between the deliveries of a batch as they
    do when a continuation enqueues. *)
Inductive step (cb_run : cbid -> callback_arg -> res unit)
    (adapt_getquoted : pyvalue -> res string)
    (str_mod : string -> fmt_args -> res string) : history -> history -> Prop :=
  | step_execute h sql_tmpl p name callback timeout key now r s' evs :
      key ∉ issued h ->
      execute adapt_getquoted str_mod sql_tmpl p name callback timeout key now
        (now_state h) = (r, s', evs) ->
      step cb_run adapt_getquoted str_mod h (next_history h [key] s')
  | step_drain h now r s' evs :
      poller_drain now (now_state h) = (r, s', evs) ->
      step cb_run adapt_getquoted str_mod h (next_history h [] s')
  | step_deliver h uid cursor r s' evs :
      deliver_entry cb_run (uid, cursor) (now_state h) = (r, s', evs) ->
      step cb_run adapt_getquoted str_mod h (next_history h [] s')
  | step_purge h now r s' evs :
      purge_expired now (now_state h) = (r, s', evs) ->
      step cb_run adapt_getquoted str_mod h (next_history h [] s').

(** The histories that start from a new queue object. *)
Inductive reachable (cb_run : cbid -> callback_arg -> res unit)
    (adapt_getquoted : pyvalue -> res string)
    (str_mod : string -> fmt_args -> res string) : history -> Prop :=
  | reachable_init pt ql npt nql :
      reachable cb_run adapt_getquoted str_mod (History (init pt ql npt nql) [] [])
  | reachable_step h h' :
      reachable cb_run adapt_getquoted str_mod h ->
      step cb_run adapt_getquoted str_mod h h' ->
      reachable cb_run adapt_getquoted str_mod h'.

(** ** Objects for the examples *)

(** A new queue object with [queue_length=2], as in [tests/queue.py]; the
    clock ticks in milliseconds. *)
Definition new_queue : DbQueryQueue := init 200 2 1000 10000.

(** The cursor the database answers for the query filed under [key]: its
    only row holds [key]. *)
Definition answer (key : string) : dbresult :=
  Cursor (Cursor_ 0 (Ret (FetchedOne (Some [PyStr key])))
                    (Ret (FetchedAll [[PyStr key]]))).

(** What [gen.WaitAll(keys)] gives when every query succeeds. *)
Definition wait_all_example (keys : list string) : list dbresult :=
  map answer keys.

(** [fetchall('SELECT 1', callback=cb)] at time 0, under the id [key]. *)
Definition enqueue_example (key : string) (cb : option cbid)
    (s : DbQueryQueue) : DbQueryQueue :=
  (fetchall adapt_example py_mod "SELECT 1" ParamsNone cb 300000 key 0 s).1.2.

(** Queries A, B and C enqueued in this order, with callbacks 1, 2 and 3. *)
Definition queue_abc : DbQueryQueue :=
  enqueue_example "C" (Some 3%nat)
    (enqueue_example "B" (Some 2%nat)
       (enqueue_example "A" (Some 1%nat) new_queue)).

(** A batch in flight: A's callback (13) raises, B's query met a lost
    connection, C is in order. *)
Definition inflight_abc : DbQueryQueue :=
  set_temp_queries
    [("A", Entry "SELECT 1" (Some 13%nat) "A" Fetchall 300000);
     ("B", Entry "SELECT 2" (Some 2%nat) "B" Fetchall 300000);
     ("C", Entry "SELECT 3" (Some 3%nat) "C" Fetchone 300000)]
    new_queue.

Definition cursors_abc : list dbresult :=
  [answer "A"; DbError (Exn Psycopg2OperationalError "connection lost");
   answer "C"].

(** Two queries enqueued at time 0 with a timeout of 5000 and never
    drained: A with callback 1, B without a callback (the default of
    [execute], [fetchone] and [fetchall]). *)
Definition queue_a_then_none : DbQueryQueue :=
  (fetchall adapt_example py_mod "SELECT 2" ParamsNone None 5000 "B" 0
     (fetchall adapt_example py_mod "SELECT 1" ParamsNone (Some 1%nat) 5000 "A" 0
        new_queue).1.2).1.2.

(** A poller on descriptor 7 with three callbacks, the second of which
    raises. *)
Definition poller_example : Poller.t := Poller.Build 7 [1%nat; 13%nat; 3%nat].

(** Two environments of a poller whose [poll()] has raised. In the first
    the connection is still open and the event loop accepts the update of
    descriptor 7. In the second the connection is closed: [fileno()] raises
    as [poll()] did, and the event loop refuses a descriptor that it does
    not know. *)
Definition fileno_open : res Z := Ret 7.
Definition update_handler_accepts (fd events : Z) : res unit := Ret tt.

Definition fileno_closed : res Z :=
  Raise (Exn Psycopg2InterfaceError "connection already closed").
Definition update_handler_refuses (fd events : Z) : res unit :=
  Raise (Exn OtherException "No such file or directory").

(** The test of [purge_expired]: the entry is kept when the clock has not
    passed [expires_at]. *)
Definition unexpired (cur_time : Z) (kv : string * entry) : Prop :=
  cur_time <= e_expires_at kv.2.

#[global] Instance unexpired_dec cur_time kv : Decision (unexpired cur_time kv).
Proof. unfold unexpired. apply _. Defined.

(** The callbacks a sweep hands to the event loop for the expired entries
    of [items], in order. *)
Definition expiry_notices (cur_time : Z) (items : OrderedDict.t entry)
    : list event :=
  omap (fun kv : string * entry =>
          if cur_time >? e_expires_at kv.2
          then option_map (fun cb => AddCallback (PartialNone cb)) (e_callback kv.2)
          else None) items.

(** The dictionary [_args] after the completions [done]. *)
Definition collected (done : list (string * dbresult))
    (args : gmap string dbresult) : gmap string dbresult :=
  foldl (fun m kc => <[kc.1 := kc.2]> m) args done.

(** The invariant of a history: no id is held twice, every id held was
    given out by [uuid4], and an id that has left is not held. *)
Definition history_ok (h : history) : Prop :=
  NoDup (live (now_state h)) /\
  (forall k, k ∈ live (now_state h) -> k ∈ issued h) /\
  (forall k, k ∈ retired h -> k ∈ issued h /\ k ∉ live (now_state h)).

(** A history of four steps: A is enqueued, drained and delivered, then B
    is enqueued. *)
Definition history_0 : history := History new_queue [] [].

Definition history_1 : history :=
  next_history history_0 ["A"] (enqueue_example "A" (Some 1%nat) new_queue).

Definition history_2 : history :=
  next_history history_1 [] (poller_drain 500 (now_state history_1)).1.2.

Definition history_3 : history :=
  next_history history_2 []
    (deliver_entry cb_example ("A", answer "A") (now_state history_2)).1.2.

Definition history_example : history :=
  next_history history_3 ["B"]
    (enqueue_example "B" (Some 2%nat) (now_state history_3)).

(** ** Further vocabulary *)

(** The runs of [poller] that the event loop makes one after the other;
    [clock] gives the two readings of the clock of each run. *)
Definition poller_runs (cb_run : cbid -> callback_arg -> res unit)
    (wait_all : list string -> list dbresult) (clock : list (Z * Z))
    : M DbQueryQueue unit :=
  for_each clock (fun t => poller cb_run wait_all t.1 t.2).

(** The events by which [poller] arranges its next run. *)
Definition reschedulings (evs : list event) : list event :=
  omap (fun ev => match ev with
                  | AddCallback PollerMethod => Some ev
                  | AddTimeout _ PollerMethod => Some ev
                  | _ => None
                  end) evs.

(** The descriptors registered with and removed from the event loop. *)
Definition registrations (evs : list event) : list (Z * Z) :=
  omap (fun ev => match ev with
                  | AddHandler fd _ events => Some (fd, events)
                  | _ => None
                  end) evs.

Definition removals (evs : list event) : list Z :=
  omap (fun ev => match ev with RemoveHandler fd => Some fd | _ => None end) evs.

(** The collectors of the queries a batch submits. *)
Definition collectors (evs : list event) : list string :=
  omap (fun ev => match ev with
                  | DbExecuteWith _ _ (BatchCollect k) => Some k
                  | _ => None
                  end) evs.

(** The SQL of a query of a batch or of a chain. *)
Definition query_sql (q : query) : string :=
  match q with
  | QueryStr sql => sql
  | QueryList sql _ => sql
  end.

(** The quoted form of a parameter that [adapt] accepts. *)
Definition quoted (adapt_getquoted : pyvalue -> res string) (v : pyvalue)
    (q : string) : Prop :=
  adapt_getquoted (encode_if_unicode v) = Ret q.

(** An instance of [adapt] that refuses [None], as psycopg2 refuses a value
    of a type without an adapter, for the examples of failures. *)
Definition adapt_refusing_none (v : pyvalue) : res string :=
  match v with
  | PyNone => Raise (Exn Psycopg2Error "can't adapt")
  | _ => adapt_example v
  end.

(** The quoted text that [adapt_example] gives for a parameter of
    [format_sql]. *)
Definition quote_example (v : pyvalue) : string :=
  match adapt_example (encode_if_unicode v) with
  | Ret q => q
  | Raise _ => ""
  end.

(** The test of [purge_expired], the other way: the clock has passed
    [expires_at]. *)
Definition expired (cur_time : Z) (kv : string * entry) : Prop :=
  e_expires_at kv.2 < cur_time.

#[global] Instance expired_dec cur_time kv : Decision (expired cur_time kv).
Proof. unfold expired. apply _. Defined.

(** Four queued entries with callbacks, expiring at 100, 300, 200 and
    300. *)
Definition queue_expiring : DbQueryQueue :=
  set_queue
    [("A", Entry "SELECT 1" (Some 1%nat) "A" Fetchall 100);
     ("B", Entry "SELECT 2" (Some 2%nat) "B" Fetchall 300);
     ("C", Entry "SELECT 3" (Some 3%nat) "C" Fetchone 200);
     ("D", Entry "SELECT 4" (Some 4%nat) "D" Fetchone 300)]
    new_queue.

(** A no-result queue with three statements, the second without a
    callback, last flushed at time 0. *)
Definition noresult_abc : DbQueryQueue :=
  set_noresult_last_time (Some 0)
    (set_noresult_queue
       [("A", ("INSERT 1", Some 1%nat)); ("B", ("INSERT 2", None));
        ("C", ("INSERT 3", Some 3%nat))]
       new_queue).

(** The batch of the example of [BatchQuery]'s use: two queries, under the
    keys a and b. *)
Definition batch_ab : gmap string query :=
  <["a" := QueryStr "SELECT 1;"]> {["b" := QueryList "SELECT %s;" [PyInt 2]]}.

(** * Properties *)

(** ** The ordered dictionary *)

Lemma setitem_fresh {V} (d : OrderedDict.t V) k v :
  k ∉ OrderedDict.keys d -> OrderedDict.setitem d k v = d ++ [(k, v)].
Proof.
  induction d as [|[k' v'] d IH]; simpl; intros Hk; [done|].
  apply not_elem_of_cons in Hk as [Hne Hk].
  destruct (decide (k' = k)); [congruence|].
  by rewrite IH.
Qed.

Lemma keys_setitem_present {V} (d : OrderedDict.t V) k v :
  k ∈ OrderedDict.keys d ->
  OrderedDict.keys (OrderedDict.setitem d k v) = OrderedDict.keys d.
Proof.
  unfold OrderedDict.keys.
  induction d as [|[k' v'] d IH]; intros Hk.
  - by apply elem_of_nil in Hk.
  - cbn [OrderedDict.setitem]. destruct (decide (k' = k)) as [->|Hne]; [done|].
    rewrite !fmap_cons, IH; [done|].
    rewrite fmap_cons in Hk. apply elem_of_cons in Hk as [Hk|Hk]; [|done].
    simpl in Hk. congruence.
Qed.

Lemma pop_head {V} (d : OrderedDict.t V) k v :
  OrderedDict.pop ((k, v) :: d) k = Some (v, d).
Proof. simpl. by destruct (decide (k = k)). Qed.

Lemma pop_split {V} (d d' : OrderedDict.t V) k v :
  OrderedDict.pop d k = Some (v, d') ->
  exists l1 l2, d = l1 ++ (k, v) :: l2 /\ d' = l1 ++ l2.
Proof.
  revert d'. induction d as [|[k' v'] d IH]; simpl; intros d' H; [done|].
  destruct (decide (k' = k)) as [->|Hne].
  - injection H as <- <-. by exists [], d.
  - destruct (OrderedDict.pop d k) as [[w d'']|] eqn:E; [|done].
    injection H as <- <-.
    destruct (IH _ eq_refl) as (l1 & l2 & -> & ->).
    by exists ((k', v') :: l1), l2.
Qed.

Lemma setitem_wf (q : OrderedDict.t entry) (key : string) (item : entry) :
  queue_wf q -> e_uid item = key -> queue_wf (OrderedDict.setitem q key item).
Proof.
  intros [Hnd Hwf] Huid.
  destruct (decide (key ∈ OrderedDict.keys q)) as [Hin|Hnin].
  - split; [by rewrite keys_setitem_present|].
    clear Hnd Hin. induction Hwf as [|[k v] q Hk Hwf IH]; simpl.
    + by constructor.
    + destruct (decide (k = key)) as [->|Hne]; by constructor.
  - rewrite setitem_fresh by done. split.
    + unfold OrderedDict.keys in *. rewrite fmap_app. simpl.
      apply NoDup_app. split; [done|]. split; [|apply NoDup_singleton].
      intros k Hk ->%list_elem_of_singleton. done.
    + apply Forall_app. split; [done|]. by constructor.
Qed.

(** ** [format_sql] *)

(** The tests of [tests/queue.py] for [format_sql], on the example
    environment. *)
Example test_format_sql_tuple :
  format_sql adapt_example py_mod "SELECT %s, %s" (ParamsTuple [PyInt 1; PyInt 2])
  = Ret "SELECT 1, 2".
Proof. vm_compute. reflexivity. Qed.

Example test_format_sql_dict :
  format_sql adapt_example py_mod "SELECT %(one)s, %(two)s"
    (ParamsDict (<["one" := PyInt 1]> (<["two" := PyInt 2]> ∅)))
  = Ret "SELECT 1, 2".
Proof. vm_compute. reflexivity. Qed.

Example test_format_sql_unicode :
  format_sql adapt_example py_mod "SELECT %s"
    (ParamsTuple [PyUnicode [1087; 1088; 1080; 1074; 1077; 1090]%N])
  = Ret "SELECT 'привет'".
Proof. vm_compute. reflexivity. Qed.

(** C10, as amended. For every template and every non-empty dictionary of
    parameters, whatever [adapt] and [%] do, [format_sql] evaluates
    [sql_tmpl % adapted] twice, both times on the template itself, and what it
    returns is the result of a single substitution. *)
Theorem format_sql_dict_is_single_substitution
    (adapt_getquoted : pyvalue -> res string)
    (str_mod : string -> fmt_args -> res string)
    (sql_tmpl : string) (d : gmap string pyvalue) :
  size d <> 0%nat ->
  format_sql adapt_getquoted str_mod sql_tmpl (ParamsDict d)
  = substituted_once adapt_getquoted str_mod sql_tmpl d.
Proof.
  intros Hd. unfold format_sql, substituted_once. simpl.
  rewrite bool_decide_eq_false_2 by done. simpl.
  destruct (adapt_items adapt_getquoted (map_to_list d) ∅) as [adapted|e];
    simpl; [|done].
  by destruct (str_mod sql_tmpl (FmtDict adapted)).
Qed.

Lemma format_sql_dict_is_single_substitution_witness :
  format_sql adapt_example py_mod "%(a)s" (ParamsDict {["a" := PyStr "50%"]})
  = substituted_once adapt_example py_mod "%(a)s" {["a" := PyStr "50%"]}.
Proof.
  apply (format_sql_dict_is_single_substitution adapt_example py_mod "%(a)s"
           {["a" := PyStr "50%"]}).
  vm_compute. discriminate.
Defined.

(** C10, as stated, fails: with the template [%(a)s] and the parameter
    ['50%'], the adapted value holds a [%]; substituting twice raises
    [ValueError] on the second pass, and [format_sql] returns the singly
    substituted text. Both templates are inside the modelled fragment of
    [%]. *)
Lemma format_sql_not_substituted_twice :
  let args := FmtDict {["a" := "'50%'"]} in
  py_mod_fragment "%(a)s" args = Some (Ret "'50%'") /\
  py_mod_fragment "'50%'" args
    = Some (Raise (Exn ValueError "unsupported format character")) /\
  format_sql adapt_example py_mod "%(a)s" (ParamsDict {["a" := PyStr "50%"]})
    = Ret "'50%'" /\
  format_sql adapt_example py_mod "%(a)s" (ParamsDict {["a" := PyStr "50%"]})
    <> substituted_twice adapt_example py_mod "%(a)s" {["a" := PyStr "50%"]}.
Proof. vm_compute. repeat split; try reflexivity. discriminate. Qed.

(** ** Enqueueing *)

(** C8. [execute] substitutes the parameters before it touches the queue:
    when the command name passes the assertion and the substitution raises,
    [execute] raises the same exception, changes nothing in the object and
    does nothing outside; when the substitution returns the SQL, the entry
    filed under the new id holds that SQL and [expires_at = now + timeout]. *)
Theorem execute_formats_before_enqueue
    (adapt_getquoted : pyvalue -> res string)
    (str_mod : string -> fmt_args -> res string)
    (sql_tmpl : string) (p : params) (name : string) (c : command)
    (callback : option cbid) (timeout : Z) (key : string) (now : Z)
    (s : DbQueryQueue) :
  parse_command name = Some c ->
  match format_sql adapt_getquoted str_mod sql_tmpl p with
  | Raise e =>
      execute adapt_getquoted str_mod sql_tmpl p name callback timeout key now s
      = (Raise e, s, [])
  | Ret sql =>
      execute adapt_getquoted str_mod sql_tmpl p name callback timeout key now s
      = (Ret tt,
         set_queue (OrderedDict.setitem (queue s) key
                      (Entry sql callback key c (now + timeout))) s,
         [])
  end.
Proof.
  intros Hc. unfold execute. rewrite Hc. unfold mbind, lift, modify.
  by destruct (format_sql adapt_getquoted str_mod sql_tmpl p).
Qed.

Lemma execute_formats_before_enqueue_witness :
  execute adapt_example py_mod "SELECT %s, %s" (ParamsTuple [PyInt 1])
    "fetchall" (Some 1%nat) 300000 "id-1" 0 new_queue
  = (Raise (Exn TypeError "not enough arguments for format string"),
     new_queue, []).
Proof.
  exact (execute_formats_before_enqueue adapt_example py_mod "SELECT %s, %s"
           (ParamsTuple [PyInt 1]) "fetchall" Fetchall (Some 1%nat) 300000
           "id-1" 0 new_queue eq_refl).
Defined.

(** A command name that fails the assertion leaves the object as it was. *)
Lemma execute_bad_command adapt_getquoted str_mod sql_tmpl p command callback
    timeout key now s :
  parse_command command = None ->
  execute adapt_getquoted str_mod sql_tmpl p command callback timeout key now s
  = (Raise (Exn AssertionError ""), s, []).
Proof. intros H. unfold execute. by rewrite H. Qed.

(** Whatever [execute] does, the queue afterwards is the queue before, or
    the queue before with one item set under [key]. *)
Lemma execute_queue adapt_getquoted str_mod sql_tmpl p command callback
    timeout key now s r s' evs :
  execute adapt_getquoted str_mod sql_tmpl p command callback timeout key now s
    = (r, s', evs) ->
  temp_queries s' = temp_queries s /\
  (queue s' = queue s \/
   exists item, e_uid item = key /\
     queue s' = OrderedDict.setitem (queue s) key item).
Proof.
  unfold execute. destruct (parse_command command) as [c|].
  - unfold mbind, lift, modify.
    destruct (format_sql adapt_getquoted str_mod sql_tmpl p) as [sql|e];
      intros [= <- <- <-]; simpl; (split; [done|]).
    + right. by eexists (Entry _ _ _ _ _).
    + by left.
  - intros [= <- <- <-]. by split; [|left].
Qed.

(** A successful [execute] under an id that is not queued puts the new
    entry behind all the others. *)
Lemma execute_appends adapt_getquoted str_mod sql_tmpl p name c callback
    timeout key now s sql :
  parse_command name = Some c ->
  format_sql adapt_getquoted str_mod sql_tmpl p = Ret sql ->
  key ∉ OrderedDict.keys (queue s) ->
  execute adapt_getquoted str_mod sql_tmpl p name callback timeout key now s
  = (Ret tt,
     set_queue (queue s ++ [(key, Entry sql callback key c (now + timeout))]) s,
     []).
Proof.
  intros Hc Hsql Hkey. unfold execute, mbind, lift, modify.
  by rewrite Hc, Hsql, setitem_fresh.
Qed.

(** [execute] keeps the queue well formed, whatever the id. *)
Lemma execute_keeps_queue_wf adapt_getquoted str_mod sql_tmpl p name callback
    timeout key now s r s' evs :
  queue_wf (queue s) ->
  execute adapt_getquoted str_mod sql_tmpl p name callback timeout key now s
    = (r, s', evs) ->
  queue_wf (queue s').
Proof.
  intros Hwf Hrun.
  destruct (execute_queue _ _ _ _ _ _ _ _ _ _ _ _ _ Hrun)
    as [_ [->|(item & Huid & ->)]]; [done|].
  by apply setitem_wf.
Qed.

(** ** The no-result queue *)

(** Each turn of the loop of the flush is a [popitem(last=False)]. *)
Lemma flush_loop_step (q : OrderedDict.t statement) callbacks sql_defs :
  flush_loop q callbacks sql_defs
  = match OrderedDict.popitem_first q with
    | Some (uid, (sql, callback), rest) =>
        flush_loop rest
          (match callback with Some cb => callbacks ++ [cb] | None => callbacks end)
          (sql_defs ++ [sql])
    | None => (q, callbacks, sql_defs)
    end.
Proof. by destruct q as [|[uid [sql callback]] rest]. Qed.

Lemma flush_loop_spec q callbacks sql_defs :
  flush_loop q callbacks sql_defs
  = ([], callbacks ++ omap snd (OrderedDict.values q),
     sql_defs ++ map fst (OrderedDict.values q)).
Proof.
  revert callbacks sql_defs.
  induction q as [|[uid [sql cb]] q IH]; intros callbacks sql_defs; simpl.
  - by rewrite !app_nil_r.
  - rewrite IH. destruct cb; simpl; by rewrite <- !app_assoc.
Qed.

Lemma execute_noresult_ok adapt_getquoted str_mod sql_tmpl p callback key s sql :
  format_sql adapt_getquoted str_mod sql_tmpl p = Ret sql ->
  let q := OrderedDict.setitem (noresult_queue s) key (sql, callback) in
  execute_noresult adapt_getquoted str_mod sql_tmpl p callback key s
  = (Ret tt, set_noresult_queue q s,
     if Z.of_nat (length q) >=? noresult_queue_length s
     then [AddCallback FlushMethod] else []).
Proof.
  intros H q. unfold execute_noresult, mbind, lift, modify, get, emit, mret.
  rewrite H. simpl. fold q. by destruct (_ >=? _).
Qed.

(** C3, as amended. Flushing the no-result queue while it is empty changes
    nothing in the object, the last-flush time included, calls no
    continuation and submits no command. *)
Theorem flush_empty_is_noop (now : Z) (s : DbQueryQueue) :
  noresult_queue s = [] ->
  execute_noresult_queue now s = (Ret tt, s, []).
Proof. intros H. unfold execute_noresult_queue, mbind, get. by rewrite H. Qed.

Lemma flush_empty_is_noop_witness :
  execute_noresult_queue 5000 (set_noresult_last_time (Some 0) new_queue)
  = (Ret tt, set_noresult_last_time (Some 0) new_queue, []).
Proof.
  apply (flush_empty_is_noop 5000 (set_noresult_last_time (Some 0) new_queue)).
  reflexivity.
Defined.

(** C3, as stated, fails: a flush at time 5000 of an empty queue last
    flushed at time 0 leaves the last-flush time at 0. *)
Lemma flush_empty_keeps_timestamp :
  let s := set_noresult_last_time (Some 0) new_queue in
  noresult_queue s = [] /\
  noresult_last_time (execute_noresult_queue 5000 s).1.2 = Some 0 /\
  noresult_last_time (execute_noresult_queue 5000 s).1.2 <> Some 5000.
Proof. vm_compute. repeat split; discriminate. Qed.

(** C4, as amended. Two statements enqueued on an empty no-result queue
    under different ids, whose formatted SQL is [s1] then [s2], are flushed
    as exactly one command, [s1] followed by a semicolon, a line feed and
    [s2]; the queue is then empty and the last-flush time is the time of
    the flush. *)
Theorem flush_joins_in_order
    (adapt_getquoted : pyvalue -> res string)
    (str_mod : string -> fmt_args -> res string)
    (tmpl1 tmpl2 : string) (p1 p2 : params) (s1 s2 : string)
    (cb1 cb2 : option cbid) (key1 key2 : string) (now : Z)
    (s : DbQueryQueue) :
  noresult_queue s = [] ->
  key1 <> key2 ->
  format_sql adapt_getquoted str_mod tmpl1 p1 = Ret s1 ->
  format_sql adapt_getquoted str_mod tmpl2 p2 = Ret s2 ->
  exists sa ea sb eb sc,
    execute_noresult adapt_getquoted str_mod tmpl1 p1 cb1 key1 s = (Ret tt, sa, ea) /\
    execute_noresult adapt_getquoted str_mod tmpl2 p2 cb2 key2 sa = (Ret tt, sb, eb) /\
    execute_noresult_queue now sb
    = (Ret tt, sc,
       [DbExecute (s1 +:+ ";" +:+ newline +:+ s2)
          (PerformCallbacks (omap id [cb1; cb2]))]) /\
    noresult_queue sc = [] /\
    noresult_last_time sc = Some now.
Proof.
  intros Hq Hne H1 H2.
  do 5 eexists.
  split; [by apply execute_noresult_ok|].
  split; [by apply execute_noresult_ok|].
  unfold execute_noresult_queue, mbind, modify, get, emit, mret.
  simpl. rewrite Hq. simpl.
  destruct (decide (key1 = key2)) as [|_]; [done|].
  destruct cb1, cb2; simpl; repeat split; reflexivity.
Qed.

Lemma flush_joins_in_order_witness :
  exists sa ea sb eb sc,
    execute_noresult adapt_example py_mod "S1" ParamsNone None "id-1" new_queue
      = (Ret tt, sa, ea) /\
    execute_noresult adapt_example py_mod "S2" ParamsNone (Some 2%nat) "id-2" sa
      = (Ret tt, sb, eb) /\
    execute_noresult_queue 7 sb
    = (Ret tt, sc,
       [DbExecute ("S1" +:+ ";" +:+ newline +:+ "S2")
          (PerformCallbacks (omap id [None; Some 2%nat]))]) /\
    noresult_queue sc = [] /\
    noresult_last_time sc = Some 7.
Proof.
  apply (flush_joins_in_order adapt_example py_mod "S1" "S2" ParamsNone
           ParamsNone "S1" "S2" None (Some 2%nat) "id-1" "id-2" 7 new_queue).
  - reflexivity.
  - discriminate.
  - reflexivity.
  - reflexivity.
Defined.

(** C4, as stated, fails: the statements [S1;] and [S2;] are flushed as the
    command [S1;] [;] line feed [S2;], with two semicolons after [S1], and
    not as [S1;] line feed [S2;]. *)
Lemma flush_doubles_semicolon :
  let sa := (execute_noresult adapt_example py_mod "S1;" ParamsNone None "id-1"
               new_queue).1.2 in
  let sb := (execute_noresult adapt_example py_mod "S2;" ParamsNone None "id-2"
               sa).1.2 in
  submitted (execute_noresult_queue 7 sb).2 = ["S1;;" +:+ newline +:+ "S2;"] /\
  submitted (execute_noresult_queue 7 sb).2 <> ["S1;" +:+ newline +:+ "S2;"].
Proof. vm_compute. split; [reflexivity|discriminate]. Qed.

(** ** The drain cycle of [poller] *)

(** Each turn of the loop of [poller] is a [popitem(last=False)]. *)
Lemma drain_loop_step (i ql : Z) (q temp : OrderedDict.t entry) :
  drain_loop i ql q temp
  = match OrderedDict.popitem_first q with
    | Some (uid, item, rest) =>
        if i <? ql
        then drain_loop (i + 1) ql rest (OrderedDict.setitem temp uid item)
        else (q, temp)
    | None => (q, temp)
    end.
Proof. by destruct q as [|[uid item] rest]. Qed.

Lemma drain_loop_spec (q temp : OrderedDict.t entry) (i ql : Z) :
  NoDup (OrderedDict.keys temp ++ OrderedDict.keys q) ->
  drain_loop i ql q temp
  = (drop (Z.to_nat (ql - i)) q, temp ++ take (Z.to_nat (ql - i)) q).
Proof.
  revert temp i. induction q as [|[uid item] q IH]; intros temp i Hnd.
  - simpl. by rewrite drop_nil, take_nil, app_nil_r.
  - cbn [drain_loop]. destruct (Z.ltb_spec i ql) as [Hlt|Hge].
    + replace (Z.to_nat (ql - i)) with (S (Z.to_nat (ql - (i + 1)))) by lia.
      assert (uid ∉ OrderedDict.keys temp) as Hfresh.
      { intros Hin. apply NoDup_app in Hnd as (_ & Hdisj & _).
        apply (Hdisj _ Hin). left. }
      rewrite (setitem_fresh _ _ _ Hfresh), IH.
      * by rewrite <- app_assoc.
      * unfold OrderedDict.keys in *. rewrite fmap_app, <- app_assoc. done.
    + replace (Z.to_nat (ql - i)) with O by lia. simpl. by rewrite app_nil_r.
Qed.

Lemma set_temp_queries_twice t t' s :
  set_temp_queries t (set_temp_queries t' s) = set_temp_queries t s.
Proof. by destruct s. Qed.

Lemma set_temp_queries_same s : set_temp_queries (temp_queries s) s = s.
Proof. by destruct s. Qed.

(** One delivery, when the entry is at the head of the in-flight
    dictionary and its failures are instances of [Exception]. *)
Lemma deliver_entry_head cb_run (k : string) (item : entry) (r : dbresult)
    (rest : OrderedDict.t entry) (s : DbQueryQueue) :
  temp_queries s = (k, item) :: rest ->
  e_uid item = k ->
  delivery_contained cb_run (k, item, r) ->
  deliver_entry cb_run (e_uid item, r) s
  = (Ret tt, set_temp_queries rest s, delivery_events cb_run (k, item, r)).
Proof.
  intros Ht Huid Hc. unfold deliver_entry, mbind, get.
  rewrite Ht, Huid, pop_head.
  unfold delivery_contained, delivery_failure in Hc.
  unfold delivery_events, delivery, delivery_failure.
  unfold modify, try_except, mbind, lift, emit, call, raise in *. simpl in *.
  destruct (getattr_call r (e_command item)) as [data|x]; simpl.
  - destruct (e_callback item) as [cb|]; simpl in *.
    + destruct (cb_run cb (ArgData data)) as [[]|x]; simpl; [done|].
      by rewrite (Hc x eq_refl).
    + done.
  - by rewrite (Hc x eq_refl).
Qed.

(** The loop of deliveries over a whole batch: every entry is delivered,
    in the order of the batch. *)
Lemma deliver_loop cb_run (batch : OrderedDict.t entry)
    (cursors : list dbresult) (s : DbQueryQueue) :
  temp_queries s = batch ->
  Forall (fun kv => e_uid kv.2 = kv.1) batch ->
  length cursors = length batch ->
  Forall (delivery_contained cb_run) (zip batch cursors) ->
  for_each (zip (map e_uid (OrderedDict.values batch)) cursors)
           (deliver_entry cb_run) s
  = (Ret tt, set_temp_queries [] s,
     concat (map (delivery_events cb_run) (zip batch cursors))).
Proof.
  revert cursors s.
  induction batch as [|[k item] batch IH]; intros cursors s Ht Hwf Hlen Hc.
  - simpl. unfold mret. by rewrite <- Ht, set_temp_queries_same.
  - destruct cursors as [|r cursors]; [done|].
    apply Forall_cons in Hwf as [Huid Hwf]. simpl in Huid.
    simpl in Hc. apply Forall_cons in Hc as [Hc1 Hc].
    cbn [OrderedDict.values fmap list_fmap map zip zip_with for_each snd].
    unfold mbind at 1.
    rewrite (deliver_entry_head cb_run k item r batch s Ht Huid Hc1).
    unfold OrderedDict.values in IH.
    rewrite (IH cursors (set_temp_queries batch s)); try done.
    simpl in Hlen. lia.
Qed.

Lemma calls_app evs evs' : calls (evs ++ evs') = calls evs ++ calls evs'.
Proof. unfold calls. apply omap_app. Qed.

Lemma calls_delivery_events cb_run l :
  calls (concat (map (delivery_events cb_run) l)) = omap delivery l.
Proof.
  induction l as [|ir l IH]; [done|].
  simpl. rewrite calls_app, IH. unfold delivery_events.
  destruct (delivery ir) as [[cb arg]|];
    destruct (delivery_failure cb_run ir); done.
Qed.

Lemma for_each_emit {S X} (f : X -> event) (l : list X) (s : S) :
  for_each l (fun x => emit (f x)) s = (Ret tt, s, map f l).
Proof.
  induction l as [|x l IH]; [done|].
  simpl. unfold mbind, emit at 1. by rewrite IH.
Qed.

Lemma uids_are_keys (batch : OrderedDict.t entry) :
  Forall (fun kv => e_uid kv.2 = kv.1) batch ->
  map e_uid (OrderedDict.values batch) = OrderedDict.keys batch.
Proof.
  unfold OrderedDict.values, OrderedDict.keys.
  induction 1 as [|[k item] batch Hk _ IH]; [done|].
  simpl in *. by f_equal.
Qed.

Lemma queue_wf_take n q : queue_wf q -> queue_wf (take n q).
Proof.
  intros [Hnd Hwf]. split.
  - unfold OrderedDict.keys in *. rewrite fmap_take.
    eapply sublist_NoDup; [|apply sublist_take]. done.
  - by apply Forall_take.
Qed.

(** The second half of [poller], on the batch that the first half left in
    flight. *)
Lemma poller_deliver_spec cb_run (batch : OrderedDict.t entry)
    (cursors : list dbresult) (later : Z) (s : DbQueryQueue) :
  temp_queries s = batch ->
  Forall (fun kv => e_uid kv.2 = kv.1) batch ->
  length cursors = length batch ->
  Forall (delivery_contained cb_run) (zip batch cursors) ->
  poller_deliver cb_run (OrderedDict.keys batch) cursors later s
  = (Ret tt, set_temp_queries [] s,
     concat (map (delivery_events cb_run) (zip batch cursors))
     ++ [reschedule later s]).
Proof.
  intros Ht Hwf Hlen Hc. unfold poller_deliver.
  rewrite <- (uids_are_keys batch Hwf). unfold mbind at 1.
  rewrite (deliver_loop cb_run batch cursors s Ht Hwf Hlen Hc).
  unfold mbind, get, emit, reschedule. simpl.
  by destruct (OrderedDict.nonempty (queue s)).
Qed.

(** A whole run of [poller]. *)
Lemma poller_spec cb_run wait_all (now later : Z) (s : DbQueryQueue) :
  queue_wf (queue s) ->
  let n := Z.to_nat (queue_length s) in
  let batch := take n (queue s) in
  let s' := set_temp_queries [] (set_queue (drop n (queue s)) s) in
  length (wait_all (OrderedDict.keys batch)) = length batch ->
  Forall (delivery_contained cb_run) (zip batch (wait_all (OrderedDict.keys batch))) ->
  poller cb_run wait_all now later s
  = (Ret tt, s',
     if OrderedDict.nonempty batch then
       map (fun kv => DbExecute (e_sql kv.2) (GenCallback kv.1)) batch
       ++ concat (map (delivery_events cb_run)
                      (zip batch (wait_all (OrderedDict.keys batch))))
       ++ [reschedule later s']
     else [AddTimeout (now + poll_timeout s) PollerMethod]).
Proof.
  intros Hq n batch s' Hlen Hc.
  pose proof (queue_wf_take n _ Hq) as [_ Hwf]. fold batch in Hwf.
  destruct Hq as [Hnd _].
  unfold poller, poller_drain. unfold mbind at 1 2 3. unfold modify at 1.
  unfold get at 1. cbn [temp_queries queue queue_length set_temp_queries].
  rewrite drain_loop_spec by done. rewrite Z.sub_0_r. fold n batch.
  unfold modify at 1. cbn [app].
  destruct (OrderedDict.nonempty batch) eqn:Hb; cbn [negb].
  - unfold mbind at 1 2. rewrite for_each_emit. unfold mret. cbn [app].
    set (s1 := set_temp_queries batch (set_queue (drop n (queue s)) (set_temp_queries [] s))).
    rewrite (uids_are_keys batch Hwf).
    rewrite (poller_deliver_spec cb_run batch _ later s1); try done.
    rewrite app_nil_r.
    assert (map (fun x => DbExecute (e_sql x) (GenCallback (e_uid x)))
                (OrderedDict.values batch)
            = map (fun kv => DbExecute (e_sql kv.2) (GenCallback kv.1)) batch)
      as ->; [|reflexivity].
    clear -Hwf. unfold OrderedDict.values.
    induction Hwf as [|[k item] l Hk _ IH]; [done|].
    simpl in *. rewrite Hk. by f_equal.
  - unfold mbind, emit, mret. simpl. f_equal. f_equal.
    destruct batch; [|done]. destruct s; reflexivity.
Qed.

Lemma submitted_app evs evs' :
  submitted (evs ++ evs') = submitted evs ++ submitted evs'.
Proof. unfold submitted. apply omap_app. Qed.

Lemma submitted_delivery_events cb_run l :
  submitted (concat (map (delivery_events cb_run) l)) = [].
Proof.
  induction l as [|ir l IH]; [done|].
  simpl. rewrite submitted_app, IH. unfold delivery_events.
  destruct (delivery ir) as [[cb arg]|];
    destruct (delivery_failure cb_run ir); done.
Qed.

Lemma submitted_submissions (batch : OrderedDict.t entry) :
  submitted (map (fun kv => DbExecute (e_sql kv.2) (GenCallback kv.1)) batch)
  = map e_sql (OrderedDict.values batch).
Proof. induction batch as [|kv batch IH]; [done|]. simpl. by f_equal. Qed.

Lemma calls_submissions (batch : OrderedDict.t entry) :
  calls (map (fun kv => DbExecute (e_sql kv.2) (GenCallback kv.1)) batch) = [].
Proof. by induction batch. Qed.

Lemma calls_reschedule later s : calls [reschedule later s] = [].
Proof. unfold reschedule. by destruct (OrderedDict.nonempty _). Qed.

Lemma submitted_reschedule later s : submitted [reschedule later s] = [].
Proof. unfold reschedule. by destruct (OrderedDict.nonempty _). Qed.

(** C1. One run of [poller] on a queue built by [execute], when
    [gen.WaitAll] answers one result per key and no delivery raises past
    [except Exception]: the batch is the first [queue_length] entries of the
    queue (all of them when there are fewer, none when [queue_length] is
    negative), the other entries stay queued in their order, the batch is
    submitted in queue order and the continuations are called in queue order,
    each with the data extracted from its own cursor. *)
Theorem drain_cycle_is_fifo (cb_run : cbid -> callback_arg -> res unit)
    (wait_all : list string -> list dbresult) (now later : Z)
    (s : DbQueryQueue) :
  queue_wf (queue s) ->
  let batch := take (Z.to_nat (queue_length s)) (queue s) in
  length (wait_all (OrderedDict.keys batch)) = length batch ->
  Forall (delivery_contained cb_run)
         (zip batch (wait_all (OrderedDict.keys batch))) ->
  exists s' evs,
    poller cb_run wait_all now later s = (Ret tt, s', evs) /\
    queue s = batch ++ queue s' /\
    temp_queries s' = [] /\
    (length batch <= Z.to_nat (queue_length s))%nat /\
    submitted evs = map e_sql (OrderedDict.values batch) /\
    calls evs = omap delivery (zip batch (wait_all (OrderedDict.keys batch))).
Proof.
  intros Hq batch Hlen Hc.
  pose proof (poller_spec cb_run wait_all now later s Hq Hlen Hc) as Hp.
  simpl in Hp. fold batch in Hp.
  eexists _, _. split; [exact Hp|].
  split; [symmetry; apply take_drop|].
  split; [done|].
  split; [unfold batch; rewrite length_take; lia|].
  destruct (OrderedDict.nonempty batch) eqn:Hb.
  - rewrite !submitted_app, !calls_app, submitted_submissions,
      submitted_delivery_events, submitted_reschedule, calls_submissions,
      calls_delivery_events, calls_reschedule.
    by rewrite !app_nil_r.
  - destruct batch; [|done]. done.
Qed.

Lemma drain_cycle_is_fifo_witness :
  let batch := take (Z.to_nat (queue_length queue_abc)) (queue queue_abc) in
  exists s' evs,
    poller cb_example wait_all_example 500 600 queue_abc = (Ret tt, s', evs) /\
    queue queue_abc = batch ++ queue s' /\
    temp_queries s' = [] /\
    (length batch <= Z.to_nat (queue_length queue_abc))%nat /\
    submitted evs = map e_sql (OrderedDict.values batch) /\
    calls evs
    = omap delivery (zip batch (wait_all_example (OrderedDict.keys batch))).
Proof.
  apply (drain_cycle_is_fifo cb_example wait_all_example 500 600 queue_abc).
  - split; [by apply (bool_decide_unpack _)|by repeat constructor].
  - reflexivity.
  - repeat constructor; intros x; vm_compute; discriminate.
Defined.

(** The example of the specification: A, B and C enqueued in this order
    with [queue_length=2]; the first run of [poller] submits and delivers A
    then B and leaves C queued, the second run delivers C. *)
Example fifo_abc :
  let '(_, s1, evs1) := poller cb_example wait_all_example 500 600 queue_abc in
  let '(_, s2, evs2) := poller cb_example wait_all_example 600 700 s1 in
  OrderedDict.keys (queue queue_abc) = ["A"; "B"; "C"] /\
  calls evs1 = [(1%nat, ArgData (FetchedAll [[PyStr "A"]]));
                (2%nat, ArgData (FetchedAll [[PyStr "B"]]))] /\
  OrderedDict.keys (queue s1) = ["C"] /\
  scheduled evs1 = [PollerMethod] /\
  calls evs2 = [(3%nat, ArgData (FetchedAll [[PyStr "C"]]))] /\
  queue s2 = [].
Proof. vm_compute. repeat split; reflexivity. Qed.

(** C6. In the delivery loop of one drain cycle, when every exception that
    an extraction or a continuation raises is an instance of [Exception]:
    the loop runs to its end and empties the in-flight dictionary; every
    failure of an entry is printed; and every entry of the batch whose
    extraction gives data has its continuation called with that data,
    whatever happened to the entries before it. *)
Theorem delivery_failures_are_contained
    (cb_run : cbid -> callback_arg -> res unit)
    (batch : OrderedDict.t entry) (cursors : list dbresult) (later : Z)
    (s : DbQueryQueue) :
  temp_queries s = batch ->
  Forall (fun kv => e_uid kv.2 = kv.1) batch ->
  length cursors = length batch ->
  Forall (delivery_contained cb_run) (zip batch cursors) ->
  exists s' evs,
    poller_deliver cb_run (OrderedDict.keys batch) cursors later s
      = (Ret tt, s', evs) /\
    temp_queries s' = [] /\
    forall ir, ir ∈ zip batch cursors ->
      (forall x, delivery_failure cb_run ir = Some x ->
         Print "DBQUERY-QUEUE:ERROR:" (exn_message x) ∈ evs) /\
      (forall cb arg, delivery ir = Some (cb, arg) -> Call cb arg ∈ evs).
Proof.
  intros Ht Hwf Hlen Hc.
  eexists _, _. split; [by apply poller_deliver_spec|].
  split; [done|].
  intros ir Hir.
  assert (forall ev, ev ∈ delivery_events cb_run ir ->
            ev ∈ concat (map (delivery_events cb_run) (zip batch cursors))
                 ++ [reschedule later s]) as Hin.
  { intros ev Hev. apply elem_of_app. left.
    apply list_elem_of_In, in_concat. exists (delivery_events cb_run ir).
    split; [|by apply list_elem_of_In].
    apply in_map. by apply list_elem_of_In. }
  split.
  - intros x Hx. apply Hin. unfold delivery_events. rewrite Hx.
    apply elem_of_app. right. left.
  - intros cb arg Hd. apply Hin. unfold delivery_events. rewrite Hd.
    apply elem_of_app. left. left.
Qed.

Lemma delivery_failures_are_contained_witness :
  exists s' evs,
    poller_deliver cb_example (OrderedDict.keys (temp_queries inflight_abc))
      cursors_abc 700 inflight_abc = (Ret tt, s', evs) /\
    temp_queries s' = [] /\
    forall ir, ir ∈ zip (temp_queries inflight_abc) cursors_abc ->
      (forall x, delivery_failure cb_example ir = Some x ->
         Print "DBQUERY-QUEUE:ERROR:" (exn_message x) ∈ evs) /\
      (forall cb arg, delivery ir = Some (cb, arg) -> Call cb arg ∈ evs).
Proof.
  apply (delivery_failures_are_contained cb_example
           (temp_queries inflight_abc) cursors_abc 700 inflight_abc).
  - reflexivity.
  - by repeat constructor.
  - reflexivity.
  - repeat constructor; intros x; vm_compute; intros [= <-]; reflexivity.
Defined.

(** The same batch, step by step: A's continuation is called and its
    failure printed, B's extraction fails and is printed, and C's
    continuation is called with C's row. *)
Example delivery_abc :
  (poller_deliver cb_example ["A"; "B"; "C"] cursors_abc 700 inflight_abc).2
  = [Call 13%nat (ArgData (FetchedAll [[PyStr "A"]]));
     Print "DBQUERY-QUEUE:ERROR:" "boom";
     Print "DBQUERY-QUEUE:ERROR:"
           "object has no attribute 'fetchall'/'fetchone'";
     Call 3%nat (ArgData (FetchedOne (Some [PyStr "C"])));
     AddTimeout 900 PollerMethod].
Proof. vm_compute. reflexivity. Qed.

(** The limit of [except Exception]: a continuation that raises
    [SystemExit] ends the loop, and the entries after it stay undelivered. *)
Example system_exit_escapes :
  let s := set_temp_queries
             [("A", Entry "SELECT 1" (Some 99%nat) "A" Fetchall 300000);
              ("B", Entry "SELECT 2" (Some 2%nat) "B" Fetchall 300000)]
             new_queue in
  poller_deliver cb_example ["A"; "B"] [answer "A"; answer "B"] 700 s
  = (Raise (Exn SystemExit "exit"),
     set_temp_queries
       [("B", Entry "SELECT 2" (Some 2%nat) "B" Fetchall 300000)] new_queue,
     [Call 99%nat (ArgData (FetchedAll [[PyStr "A"]]))]).
Proof. vm_compute. reflexivity. Qed.

(** ** The readiness poller *)





Example poll_error_example :
  (Poller._update_handler cb_example fileno_open update_handler_accepts
     (Raise (Exn Psycopg2Warning "data truncated")) poller_example).2
  = [UpdateHandler 7 0;
     Call 1%nat (ArgError (Exn Psycopg2Warning "data truncated"));
     Call 13%nat (ArgError (Exn Psycopg2Warning "data truncated"));
     Print "DBQUERY-POLLER:CALLBACK_ERROR:" "boom";
     Call 3%nat (ArgError (Exn Psycopg2Warning "data truncated"))] /\
  (Poller._update_handler cb_example fileno_closed update_handler_refuses
     (Raise (Exn Psycopg2OperationalError "server closed the connection"))
     poller_example).2
  = [Call 1%nat (ArgError (Exn Psycopg2OperationalError "server closed the connection"));
     Call 13%nat (ArgError (Exn Psycopg2OperationalError "server closed the connection"));
     Print "DBQUERY-POLLER:CALLBACK_ERROR:" "boom";
     Call 3%nat (ArgError (Exn Psycopg2OperationalError "server closed the connection"))].
Proof. vm_compute. split; reflexivity. Qed.

(** X29. The limit of the guard. The update of the descriptor is outside
    every [try]: when the error of [poll()] is no [DatabaseError] and
    [fileno()] raises, or gives a descriptor that [update_handler]
    refuses, that exception leaves [_update_handler] and no callback is
    called. *)
Lemma update_failure_skips_callbacks
    (cb_run : cbid -> callback_arg -> res unit)
    (fileno : res Z) (update_handler : Z -> Z -> res unit)
    (error x : exn) (s : Poller.t) :
  isinstance_psycopg2 error = true ->
  isinstance_DatabaseError error = false ->
  (fileno = Raise x \/
   exists fd, fileno = Ret fd /\ update_handler fd 0 = Raise x) ->
  exists evs,
    Poller._update_handler cb_run fileno update_handler (Raise error) s
      = (Raise x, s, evs) /\
    calls evs = [].
Proof.
  intros Herr Hdb Hupd. unfold Poller._update_handler.
  unfold mbind at 1. unfold get at 1. rewrite Herr, Hdb. cbn [negb].
  destruct Hupd as [-> |(fd & -> & Hfd)].
  - by exists [].
  - exists [UpdateHandler fd 0]. unfold mbind, lift, emit. by rewrite Hfd.
Qed.

Lemma update_failure_skips_callbacks_witness :
  let closed := Exn Psycopg2InterfaceError "connection already closed" in
  (exists evs,
     Poller._update_handler cb_example fileno_closed update_handler_refuses
       (Raise closed) poller_example = (Raise closed, poller_example, evs) /\
     calls evs = []) /\
  (exists evs,
     Poller._update_handler cb_example fileno_open update_handler_refuses
       (Raise closed) poller_example
     = (Raise (Exn OtherException "No such file or directory"),
        poller_example, evs) /\
     calls evs = []).
Proof.
  split.
  - apply (update_failure_skips_callbacks cb_example fileno_closed
             update_handler_refuses
             (Exn Psycopg2InterfaceError "connection already closed")
             (Exn Psycopg2InterfaceError "connection already closed")
             poller_example).
    + reflexivity.
    + reflexivity.
    + left. reflexivity.
  - apply (update_failure_skips_callbacks cb_example fileno_open
             update_handler_refuses
             (Exn Psycopg2InterfaceError "connection already closed")
             (Exn OtherException "No such file or directory")
             poller_example).
    + reflexivity.
    + reflexivity.
    + right. exists 7. split; reflexivity.
Defined.

Example update_failure_example :
  Poller._update_handler cb_example fileno_closed update_handler_refuses
    (Raise (Exn Psycopg2InterfaceError "connection already closed"))
    poller_example
  = (Raise (Exn Psycopg2InterfaceError "connection already closed"),
     poller_example, []) /\
  Poller._update_handler cb_example fileno_open update_handler_refuses
    (Raise (Exn Psycopg2InterfaceError "connection already closed"))
    poller_example
  = (Raise (Exn OtherException "No such file or directory"),
     poller_example, [UpdateHandler 7 0]).
Proof. vm_compute. split; reflexivity. Qed.

(** ** The expiry sweep *)

(** C2, at the failing input. A (callback 1) and B (no callback) are
    enqueued at time 0 with a timeout of 5000 and never drained. The sweep
    at time 30000 hands A's continuation, applied to [None], to the event
    loop, then raises [TypeError] on B before the queue is replaced: A and B
    stay queued. The sweep at time 60000 does the same again, so A's
    continuation is called with [None] once per sweep and A is never
    discarded. *)
Theorem purge_stops_at_missing_callback :
  OrderedDict.keys (queue queue_a_then_none) = ["A"; "B"] /\
  purge_expired 30000 queue_a_then_none
  = (Raise (Exn TypeError "the first argument must be callable"),
     queue_a_then_none, [AddCallback (PartialNone 1%nat)]) /\
  purge_expired 60000 queue_a_then_none
  = (Raise (Exn TypeError "the first argument must be callable"),
     queue_a_then_none, [AddCallback (PartialNone 1%nat)]).
Proof. vm_compute. repeat split; reflexivity. Qed.

(** The loop of the sweep never changes the object itself, and when it
    reaches its end the new queue holds the unexpired entries in their
    order. *)
Lemma purge_loop_spec (cur_time : Z) (items new_queue : OrderedDict.t entry)
    (s : DbQueryQueue) r s' evs :
  NoDup (OrderedDict.keys new_queue ++ OrderedDict.keys items) ->
  purge_loop cur_time items new_queue s = (r, s', evs) ->
  s' = s /\
  forall q, r = Ret q -> q = new_queue ++ filter (unexpired cur_time) items.
Proof.
  unfold OrderedDict.t in *. revert new_queue r s' evs.
  induction items as [|[k v] items IH]; intros new_queue r s' evs Hnd.
  - simpl. unfold mret. intros [= <- <- <-]. split; [done|].
    intros q [= <-]. by rewrite app_nil_r.
  - cbn [purge_loop]. destruct (Z.gtb_spec cur_time (e_expires_at v)) as [Hexp|Hkeep].
    + unfold mbind at 1.
      assert (NoDup (OrderedDict.keys new_queue ++ OrderedDict.keys items)) as Hnd'.
      { unfold OrderedDict.keys in *. rewrite fmap_cons in Hnd.
        by apply NoDup_app in Hnd as (? & ? & ?%NoDup_cons_1_2);
          apply NoDup_app; repeat split; [|intros x Hx Hx'; eapply H0; [done|by right]|]. }
      destruct (e_callback v) as [cb|].
      * unfold emit at 1.
        destruct (purge_loop cur_time items new_queue s) as [[r1 s1] evs1] eqn:E.
        destruct (IH _ _ _ _ Hnd' E) as [-> Hq]. intros [= <- <- <-]. split; [done|].
        intros q Hr. rewrite (Hq q Hr).
        rewrite filter_cons_False; [done|]. unfold unexpired. simpl. lia.
      * unfold raise. intros [= <- <- <-]. split; [done|]. intros q Hq. done.
    + assert (k ∉ OrderedDict.keys new_queue) as Hfresh.
      { intros Hin. apply NoDup_app in Hnd as (_ & Hdisj & _).
        apply (Hdisj _ Hin). left. }
      rewrite (setitem_fresh _ _ _ Hfresh). intros Hrun.
      assert (NoDup (OrderedDict.keys (new_queue ++ [(k, v)])
                     ++ OrderedDict.keys items)) as Hnd'.
      { unfold OrderedDict.keys in *. by rewrite fmap_app, <- app_assoc. }
      destruct (IH _ _ _ _ Hnd' Hrun) as [-> Hq].
      split; [done|]. intros q Hr. rewrite (Hq q Hr).
      rewrite filter_cons_True; [by rewrite <- app_assoc|].
      unfold unexpired. simpl. lia.
Qed.

(** When every queued entry has a callback, a sweep keeps exactly the
    entries with [cur_time <= expires_at], in their order, and hands the
    continuation of every other entry, applied to [None], to the event loop
    once. *)
Lemma purge_loop_callable (cur_time : Z) (items new_queue : OrderedDict.t entry)
    (s : DbQueryQueue) :
  NoDup (OrderedDict.keys new_queue ++ OrderedDict.keys items) ->
  Forall (fun kv => is_Some (e_callback kv.2)) items ->
  purge_loop cur_time items new_queue s
  = (Ret (new_queue ++ filter (unexpired cur_time) items), s,
     expiry_notices cur_time items).
Proof.
  unfold OrderedDict.t in *. revert new_queue.
  induction items as [|[k v] items IH]; intros new_queue Hnd Hcb.
  - simpl. unfold mret. by rewrite app_nil_r.
  - apply Forall_cons in Hcb as [[cb Hcb] Hcbs]. simpl in Hcb.
    cbn [purge_loop expiry_notices omap list_omap snd].
    destruct (Z.gtb_spec cur_time (e_expires_at v)) as [Hexp|Hkeep].
    + unfold mbind at 1. rewrite Hcb. unfold emit at 1. rewrite IH; [| |done].
      * rewrite filter_cons_False; [done|]. unfold unexpired. simpl. lia.
      * unfold OrderedDict.keys in *. rewrite fmap_cons in Hnd.
        apply NoDup_app in Hnd as (? & ? & ?%NoDup_cons_1_2).
        apply NoDup_app; repeat split; [done| |done].
        intros x Hx Hx'. eapply H0; [done|by right].
    + assert (k ∉ OrderedDict.keys new_queue) as Hfresh.
      { intros Hin. apply NoDup_app in Hnd as (_ & Hdisj & _).
        apply (Hdisj _ Hin). left. }
      rewrite (setitem_fresh _ _ _ Hfresh), IH; [| |done].
      * rewrite filter_cons_True; [by rewrite <- app_assoc|].
        unfold unexpired. simpl. lia.
      * unfold OrderedDict.keys in *. by rewrite fmap_app, <- app_assoc.
Qed.

Lemma purge_expired_callable (now : Z) (s : DbQueryQueue) :
  NoDup (OrderedDict.keys (queue s)) ->
  Forall (fun kv => is_Some (e_callback kv.2)) (queue s) ->
  purge_expired now s
  = (Ret tt, set_queue (filter (unexpired now) (queue s)) s,
     expiry_notices now (queue s)).
Proof.
  intros Hnd Hcb. unfold purge_expired, mbind, get, modify.
  rewrite purge_loop_callable by done. simpl. by rewrite app_nil_r.
Qed.

(** ** The fan-out batch runner *)

(** C5, at the failing input. [BatchQuery(db, {}, callback)] sets the
    countdown to 0 and submits no query, so that no collector exists to be
    called and [callback] is never called, whereas the claim has it called
    once with the empty mapping. *)
Theorem batch_of_nothing_never_completes (callback : cbid) :
  BatchQuery.init ∅ (Some callback)
  = (BatchQuery.Build (Some callback) ∅ ∅ 0, []).
Proof. reflexivity. Qed.

(** The sibling class does call its continuation when it is given no
    query: [QueryChain(db, [], callback)] calls [callback([])] from
    [__init__]. *)
Lemma chain_of_nothing_completes cb_run (callback : cbid) :
  QueryChain.init cb_run [] (Some callback)
  = (cb_run callback (ArgCursorList []),
     QueryChain.Build (Some callback) [] [],
     [Call callback (ArgCursorList [])]).
Proof. reflexivity. Qed.

(** While queries are outstanding, the collectors only record. *)
Lemma completions_pending cb_run (done : list (string * dbresult))
    (s : BatchQuery.t) :
  Z.of_nat (length done) < BatchQuery._size s ->
  BatchQuery.completions cb_run done s
  = (Ret tt,
     BatchQuery.Build (BatchQuery._callback s) (BatchQuery._queries s)
       (collected done (BatchQuery._args s))
       (BatchQuery._size s - Z.of_nat (length done)),
     []).
Proof.
  revert s. induction done as [|[k c] done IH]; intros s Hsize.
  - simpl. unfold mret. destruct s; simpl. by rewrite Z.sub_0_r.
  - unfold BatchQuery.completions in *. cbn [for_each length] in *.
    unfold mbind at 1. unfold BatchQuery._collect at 1.
    unfold mbind, modify, get, mret. cbn [fst snd BatchQuery._size
      BatchQuery._args BatchQuery._callback BatchQuery._queries].
    destruct (Z.eqb_spec (BatchQuery._size s - 1) 0) as [Heq|Hne]; [lia|].
    cbn [negb app]. rewrite IH by (simpl; lia). simpl.
    do 2 f_equal. f_equal. lia.
Qed.

(** The completion that brings the countdown to 0 calls the continuation
    with the collected mapping, and it is the only one that does. *)
Lemma completions_spec cb_run (callback : cbid)
    (done : list (string * dbresult)) (s : BatchQuery.t) :
  BatchQuery._callback s = Some callback ->
  BatchQuery._size s = Z.of_nat (length done) ->
  done <> [] ->
  let args := collected done (BatchQuery._args s) in
  BatchQuery.completions cb_run done s
  = (match cb_run callback (ArgCursors args) with
     | Ret _ => Ret tt
     | Raise x => Raise x
     end,
     BatchQuery.Build (Some callback) (BatchQuery._queries s) args 0,
     [Call callback (ArgCursors args)]).
Proof.
  intros Hcb Hsize Hne.
  destruct (exists_last Hne) as (pre & [k c] & ->). clear Hne.
  rewrite length_app in Hsize. simpl in Hsize.
  unfold BatchQuery.completions. 
  assert (forall (l1 l2 : list (string * dbresult)) (body : _ -> M BatchQuery.t unit) s0,
            for_each (l1 ++ l2) body s0
            = mbind (for_each l1 body) (fun _ => for_each l2 body) s0) as Happ.
  { clear. induction l1 as [|x l1 IH]; intros l2 body s0.
    - simpl. unfold mbind, mret. by destruct (for_each l2 body s0) as [[? ?] ?].
    - simpl. unfold mbind in *. destruct (body x s0) as [[[[]|e] s1] t1]; [|done].
      rewrite IH. destruct (for_each l1 body s1) as [[[[]|e] s2] t2]; [|done].
      destruct (for_each l2 body s2) as [[r3 s3] t3]. by rewrite app_assoc. }
  rewrite Happ. unfold mbind at 1.
  pose proof (completions_pending cb_run pre s ltac:(lia)) as Hpre.
  unfold BatchQuery.completions in Hpre. rewrite Hpre.
  cbn [for_each]. unfold mbind at 1. unfold BatchQuery._collect.
  unfold mbind, modify, get, mret, call. cbn [fst snd BatchQuery._size
      BatchQuery._args BatchQuery._callback BatchQuery._queries].
  replace (BatchQuery._size s - Z.of_nat (length pre) - 1) with 0 by lia.
  cbn [Z.eqb negb]. rewrite Hcb. unfold collected. rewrite foldl_app. simpl.
  by destruct (cb_run callback _) as [[]|x].
Qed.

Lemma collected_list_to_map (done : list (string * dbresult)) :
  NoDup done.*1 -> collected done ∅ = list_to_map done.
Proof.
  induction done as [|[k c] done IH] using rev_ind; [done|].
  rewrite fmap_app. intros (Hnd & Hdisj & _)%NoDup_app.
  unfold collected in *. rewrite foldl_app. simpl. rewrite (IH Hnd).
  rewrite list_to_map_snoc; [done|].
  intros Hin. apply (Hdisj _ Hin). left.
Qed.

(** X25. A batch of at least one query: when every submitted query
    completes once, in whatever order, the continuation is called once, by
    the last completion, with the mapping from the given keys to their
    results. *)
Lemma batch_completes_once cb_run (callback : cbid)
    (queries : gmap string query) (done : list (string * dbresult)) :
  queries <> ∅ ->
  done.*1 ≡ₚ (map_to_list queries).*1 ->
  let b := (BatchQuery.init queries (Some callback)).1 in
  let args : gmap string dbresult := list_to_map done in
  dom args = dom queries /\
  (BatchQuery.completions cb_run done b).2 = [Call callback (ArgCursors args)] /\
  forall pre post, done = pre ++ post -> post <> [] ->
    (BatchQuery.completions cb_run pre b).2 = [].
Proof.
  intros Hne Hperm b args.
  assert (NoDup done.*1) as Hnd.
  { rewrite Hperm. apply NoDup_fst_map_to_list. }
  assert (length done = size queries) as Hlen.
  { rewrite <- length_map_to_list, <- (length_fmap fst done), Hperm.
    apply length_fmap. }
  split; [|split].
  - unfold args. rewrite dom_list_to_map_L.
    apply leibniz_equiv. rewrite dom_alt. by rewrite Hperm.
  - rewrite (completions_spec cb_run callback done b); simpl.
    + by rewrite collected_list_to_map.
    + done.
    + by rewrite Hlen.
    + intros ->. simpl in Hlen. symmetry in Hlen.
      by apply map_size_empty_iff in Hlen.
  - intros pre post -> Hpost.
    rewrite completions_pending; [done|]. simpl.
    rewrite length_app in Hlen. destruct post; [done|]. simpl in Hlen. lia.
Qed.

(** ** Where a request id lives *)

Lemma submseteq_NoDup {A} (l k : list A) : l ⊆+ k -> NoDup k -> NoDup l.
Proof.
  intros (k' & Hk)%submseteq_Permutation Hnd. rewrite Hk in Hnd.
  by apply NoDup_app in Hnd as (? & _ & _).
Qed.

Lemma poller_drain_state now s r s' evs :
  NoDup (OrderedDict.keys (queue s)) ->
  poller_drain now s = (r, s', evs) ->
  queue s' = drop (Z.to_nat (queue_length s)) (queue s) /\
  temp_queries s' = take (Z.to_nat (queue_length s)) (queue s).
Proof.
  intros Hnd. unfold poller_drain. unfold mbind at 1 2 3. unfold modify at 1.
  unfold get at 1. cbn [temp_queries queue queue_length set_temp_queries].
  rewrite drain_loop_spec by done. rewrite Z.sub_0_r. cbn [app].
  unfold modify at 1.
  destruct (OrderedDict.nonempty _); cbn [negb].
  - unfold mbind. rewrite for_each_emit. unfold mret.
    by intros [= <- <- <-].
  - unfold mbind, emit, mret. by intros [= <- <- <-].
Qed.

Lemma deliver_entry_state cb_run uid cursor s r s' evs :
  deliver_entry cb_run (uid, cursor) s = (r, s', evs) ->
  queue s' = queue s /\
  ((temp_queries s' = temp_queries s /\ evs = []) \/
   exists item l1 l2,
     temp_queries s = l1 ++ (uid, item) :: l2 /\ temp_queries s' = l1 ++ l2).
Proof.
  unfold deliver_entry, mbind, get.
  destruct (OrderedDict.pop (temp_queries s) uid) as [[item t]|] eqn:Hpop.
  - destruct (pop_split _ _ _ _ Hpop) as (l1 & l2 & H1 & H2).
    unfold modify, try_except, mbind, lift, emit, call, raise.
    intros Hrun. assert (s' = set_temp_queries t s) as ->.
    { destruct (getattr_call cursor (e_command item)) as [data|x].
      - destruct (e_callback item) as [cb|].
        + destruct (cb_run cb (ArgData data)) as [[]|x].
          * by injection Hrun as <- <- <-.
          * destruct (isinstance_Exception x); by injection Hrun as <- <- <-.
        + simpl in Hrun. by injection Hrun as <- <- <-.
      - simpl in Hrun.
        destruct (isinstance_Exception x); by injection Hrun as <- <- <-. }
    split; [done|]. right. exists item, l1, l2. by subst.
  - unfold raise. intros [= <- <- <-]. split; [done|]. by left.
Qed.

Lemma purge_expired_state now s r s' evs :
  NoDup (OrderedDict.keys (queue s)) ->
  purge_expired now s = (r, s', evs) ->
  temp_queries s' = temp_queries s /\
  (queue s' = queue s \/ queue s' = filter (unexpired now) (queue s)).
Proof.
  intros Hnd. unfold purge_expired, mbind, get, modify.
  destruct (purge_loop now (queue s) [] s) as [[r1 s1] evs1] eqn:Hloop.
  destruct (purge_loop_spec now (queue s) [] s r1 s1 evs1 Hnd Hloop) as [-> Hq].
  destruct r1 as [q|x]; intros [= <- <- <-]; simpl.
  - split; [done|]. right. by rewrite (Hq q eq_refl).
  - split; [done|]. by left.
Qed.

(** A step that gives out the ids [new] and holds afterwards only ids it
    held before or ids of [new] keeps the invariant. *)
Lemma history_ok_next (h : history) (s' : DbQueryQueue) (new : list string) :
  history_ok h ->
  (forall k, k ∈ new -> k ∉ issued h) ->
  NoDup (live s') ->
  (forall k, k ∈ live s' -> k ∈ new \/ k ∈ live (now_state h)) ->
  history_ok (next_history h new s').
Proof.
  intros (Hnd & Hlive & Hret) Hnew Hnd' Hsub. repeat split; simpl.
  - done.
  - intros k Hk. apply elem_of_app. destruct (Hsub k Hk); [by left|right; auto].
  - apply elem_of_app in H as [H|H].
    + apply elem_of_app. right. by apply Hret.
    + apply elem_of_app. right. apply Hlive.
      unfold left_between in H. by apply list_elem_of_filter in H as [_ ?].
  - intros Hk. apply elem_of_app in H as [H|H].
    + destruct (Hret k H) as [Hiss Hnl].
      destruct (Hsub k Hk) as [Hn|Hl]; [by apply (Hnew k)|done].
    + unfold left_between in H. by apply list_elem_of_filter in H as [? _].
Qed.

Lemma step_keeps_history_ok cb_run adapt_getquoted str_mod h h' :
  history_ok h -> step cb_run adapt_getquoted str_mod h h' -> history_ok h'.
Proof.
  intros Hok Hstep. pose proof Hok as (Hnd & Hlive & Hret).
  unfold live in Hnd.
  pose proof Hnd as (Hndq & Hdisj & Hndt)%NoDup_app.
  destruct Hstep as [h sql_tmpl p name callback timeout key now r s' evs Hkey Hrun
                    |h now r s' evs Hrun
                    |h uid cursor r s' evs Hrun
                    |h now r s' evs Hrun].
  - apply (history_ok_next h s' [key] Hok).
    + intros k ->%list_elem_of_singleton. done.
    + destruct (execute_queue _ _ _ _ _ _ _ _ _ _ _ _ _ Hrun) as [Ht [Hq|(item & _ & Hq)]];
        unfold live; rewrite Ht, Hq; [done|].
      assert (key ∉ live (now_state h)) as Hfresh by (intros ?; auto).
      unfold live in Hfresh. apply not_elem_of_app in Hfresh as [Hfq Hft].
      rewrite setitem_fresh by done.
      unfold OrderedDict.keys in *. rewrite fmap_app, <- app_assoc. simpl.
      apply NoDup_app. split; [done|]. split.
      * intros k Hk [-> |Hk']%elem_of_cons; [done|]. by eapply Hdisj.
      * by apply NoDup_cons.
    + intros k.
      destruct (execute_queue _ _ _ _ _ _ _ _ _ _ _ _ _ Hrun) as [Ht [Hq|(item & _ & Hq)]];
        unfold live; rewrite Ht, Hq; [by right|].
      destruct (decide (key ∈ OrderedDict.keys (queue (now_state h)))) as [Hin|Hnin].
      * rewrite keys_setitem_present by done. by right.
      * rewrite setitem_fresh by done. unfold OrderedDict.keys.
        rewrite fmap_app. simpl. rewrite !elem_of_app, list_elem_of_singleton.
        intros [[?| ->]|?]; [right; by left|by left|right; by right].
  - destruct (poller_drain_state _ _ _ _ _ Hndq Hrun) as [Hq Ht].
    assert (live s' ≡ₚ OrderedDict.keys (queue (now_state h))) as Hperm.
    { unfold live, OrderedDict.keys. rewrite Hq, Ht, <- fmap_app.
      rewrite (Permutation_app_comm (drop _ _)). by rewrite take_drop. }
    apply (history_ok_next h s' [] Hok).
    + intros k Hk. by apply elem_of_nil in Hk.
    + by rewrite Hperm.
    + intros k Hk. right. rewrite Hperm in Hk. unfold live.
      apply elem_of_app. by left.
  - destruct (deliver_entry_state _ _ _ _ _ _ _ Hrun)
      as [Hq [[Ht _]|(item & l1 & l2 & Ht & Ht')]].
    + apply (history_ok_next h s' [] Hok).
      * intros k Hk. by apply elem_of_nil in Hk.
      * unfold live. by rewrite Hq, Ht.
      * intros k Hk. right. unfold live in *. by rewrite Hq, Ht in Hk.
    + assert (live s' ⊆+ live (now_state h)) as Hsub.
      { unfold live. rewrite Hq, Ht, Ht'. apply submseteq_skips_l.
        unfold OrderedDict.keys. rewrite !fmap_app, fmap_cons.
        apply submseteq_skips_l. apply submseteq_cons. done. }
      apply (history_ok_next h s' [] Hok).
      * intros k Hk. by apply elem_of_nil in Hk.
      * by eapply submseteq_NoDup.
      * intros k Hk. right. by eapply elem_of_submseteq.
  - destruct (purge_expired_state _ _ _ _ _ Hndq Hrun) as [Ht Hq].
    assert (live s' ⊆+ live (now_state h)) as Hsub.
    { unfold live. rewrite Ht. apply submseteq_skips_r.
      destruct Hq as [->| ->]; [done|].
      apply sublist_submseteq. unfold OrderedDict.keys.
      apply fmap_sublist, sublist_filter. }
    apply (history_ok_next h s' [] Hok).
    + intros k Hk. by apply elem_of_nil in Hk.
    + by eapply submseteq_NoDup.
    + intros k Hk. right. by eapply elem_of_submseteq.
Qed.

Lemma reachable_history_ok cb_run adapt_getquoted str_mod h :
  reachable cb_run adapt_getquoted str_mod h -> history_ok h.
Proof.
  induction 1 as [pt ql npt nql|h h' _ IH Hstep].
  - split; [apply NoDup_nil_2|].
    split; simpl; intros k Hk; by apply elem_of_nil in Hk.
  - by eapply step_keeps_history_ok.
Qed.

Lemma queue_wf_sublist (q q' : OrderedDict.t entry) :
  q' `sublist_of` q -> queue_wf q -> queue_wf q'.
Proof.
  intros Hsub [Hnd Hwf]. split.
  - eapply sublist_NoDup; [done|]. unfold OrderedDict.keys. by apply fmap_sublist.
  - rewrite Forall_forall in *. intros kv Hkv. apply Hwf.
    by eapply elem_of_submseteq, sublist_submseteq.
Qed.

(** In every reachable state the queue is as [execute] builds it. *)
Lemma reachable_queue_wf cb_run adapt_getquoted str_mod h :
  reachable cb_run adapt_getquoted str_mod h ->
  queue_wf (queue (now_state h)).
Proof.
  induction 1 as [pt ql npt nql|h h' Hreach IH Hstep].
  - split; [apply NoDup_nil_2|by constructor].
  - pose proof IH as [Hnd _].
    destruct Hstep as [h sql_tmpl p name callback timeout key now r s' evs Hkey Hrun
                      |h now r s' evs Hrun
                      |h uid cursor r s' evs Hrun
                      |h now r s' evs Hrun]; simpl.
    + by eapply execute_keeps_queue_wf.
    + destruct (poller_drain_state _ _ _ _ _ Hnd Hrun) as [-> _].
      eapply queue_wf_sublist; [apply sublist_drop|done].
    + by destruct (deliver_entry_state _ _ _ _ _ _ _ Hrun) as [-> _].
    + destruct (purge_expired_state _ _ _ _ _ Hnd Hrun) as [_ [->| ->]]; [done|].
      eapply queue_wf_sublist; [apply sublist_filter|done].
Qed.

(** C9. In every state that a queue object reaches from its creation by
    enqueues under ids never given out before, drains, deliveries and
    expiry sweeps, in any order: no id is queued twice or in flight twice,
    no id is both queued and in flight, an id that has left the object is
    neither queued nor in flight, and a delivery that calls a continuation
    makes the id of that entry leave the object. *)
Theorem ids_in_one_place (cb_run : cbid -> callback_arg -> res unit)
    (adapt_getquoted : pyvalue -> res string)
    (str_mod : string -> fmt_args -> res string) (h : history) :
  reachable cb_run adapt_getquoted str_mod h ->
  let s := now_state h in
  NoDup (OrderedDict.keys (queue s)) /\
  NoDup (OrderedDict.keys (temp_queries s)) /\
  (forall k, k ∈ OrderedDict.keys (queue s) ->
             k ∉ OrderedDict.keys (temp_queries s)) /\
  (forall k, k ∈ retired h -> k ∉ live s) /\
  (forall uid cursor r s' evs cb arg,
     deliver_entry cb_run (uid, cursor) s = (r, s', evs) ->
     Call cb arg ∈ evs -> uid ∈ left_between s s').
Proof.
  intros Hreach s.
  destruct (reachable_history_ok _ _ _ _ Hreach) as (Hnd & _ & Hret).
  fold s in Hnd, Hret. unfold live in Hnd.
  pose proof Hnd as (Hndq & Hdisj & Hndt)%NoDup_app.
  repeat split; try done.
  - intros k Hk. by apply Hret.
  - intros uid cursor r s' evs cb arg Hrun Hcall.
    destruct (deliver_entry_state _ _ _ _ _ _ _ Hrun)
      as [Hq [[_ ->]|(item & l1 & l2 & Ht & Ht')]];
      [by apply elem_of_nil in Hcall|].
    unfold left_between. apply list_elem_of_filter. split.
    + unfold live. rewrite Hq, Ht'. fold s.
      apply not_elem_of_app. split.
      * intros Hin. apply (Hdisj _ Hin). rewrite Ht.
        unfold OrderedDict.keys. rewrite fmap_app, fmap_cons.
        apply elem_of_app. right. left.
      * rewrite Ht in Hndt. unfold OrderedDict.keys in *.
        rewrite fmap_app, fmap_cons in Hndt. rewrite fmap_app.
        apply NoDup_app in Hndt as (_ & Hd1 & Hd2%NoDup_cons_1_1).
        intros [Hin|Hin]%elem_of_app; [|done].
        apply (Hd1 _ Hin). left.
    + unfold live. rewrite Ht. apply elem_of_app. right.
      unfold OrderedDict.keys. rewrite fmap_app, fmap_cons.
      apply elem_of_app. right. left.
Qed.

Lemma ids_in_one_place_witness :
  let s := now_state history_example in
  NoDup (OrderedDict.keys (queue s)) /\
  NoDup (OrderedDict.keys (temp_queries s)) /\
  (forall k, k ∈ OrderedDict.keys (queue s) ->
             k ∉ OrderedDict.keys (temp_queries s)) /\
  (forall k, k ∈ retired history_example -> k ∉ live s) /\
  (forall uid cursor r s' evs cb arg,
     deliver_entry cb_example (uid, cursor) s = (r, s', evs) ->
     Call cb arg ∈ evs -> uid ∈ left_between s s').
Proof.
  apply (ids_in_one_place cb_example adapt_example py_mod history_example).
  apply (reachable_step _ _ _ history_3).
  - apply (reachable_step _ _ _ history_2).
    + apply (reachable_step _ _ _ history_1).
      * apply (reachable_step _ _ _ history_0).
        -- apply reachable_init.
        -- apply (step_execute _ _ _ history_0 "SELECT 1" ParamsNone "fetchall"
                    (Some 1%nat) 300000 "A" 0 (Ret tt) _ []).
           ++ apply (bool_decide_unpack _). vm_compute. reflexivity.
           ++ vm_compute. reflexivity.
      * apply (step_drain _ _ _ history_1 500 (Ret (Some ["A"])) _
                 [DbExecute "SELECT 1" (GenCallback "A")]).
        vm_compute. reflexivity.
    + apply (step_deliver _ _ _ history_2 "A" (answer "A") (Ret tt) _
               [Call 1%nat (ArgData (FetchedAll [[PyStr "A"]]))]).
      vm_compute. reflexivity.
  - apply (step_execute _ _ _ history_3 "SELECT 1" ParamsNone "fetchall"
             (Some 2%nat) 300000 "B" 0 (Ret tt) _ []).
    + apply (bool_decide_unpack _). vm_compute. reflexivity.
    + vm_compute. reflexivity.
Defined.

Example history_example_value :
  OrderedDict.keys (queue (now_state history_example)) = ["B"] /\
  temp_queries (now_state history_example) = [] /\
  issued history_example = ["B"; "A"] /\
  retired history_example = ["A"].
Proof. vm_compute. repeat split; reflexivity. Qed.

(** * Further properties of the code *)

(** ** [OrderedDict] *)

Lemma filter_other_keys {V} (d : list (string * V)) (k : string) :
  k ∉ d.*1 -> filter (fun kv => kv.1 <> k) d = d.
Proof.
  induction d as [|[k' v'] d IH]; [done|].
  rewrite fmap_cons. intros [Hne Hk]%not_elem_of_cons. simpl in Hne.
  rewrite filter_cons_True by (simpl; congruence). by rewrite IH.
Qed.

Lemma pop_absent {V} (d : OrderedDict.t V) (k : string) :
  k ∉ OrderedDict.keys d -> OrderedDict.pop d k = None.
Proof.
  unfold OrderedDict.keys.
  induction d as [|[k' v'] d IH]; [done|].
  rewrite fmap_cons. intros [Hne Hk]%not_elem_of_cons. simpl in Hne.
  cbn [OrderedDict.pop]. destruct (decide (k' = k)); [congruence|].
  by rewrite IH.
Qed.

Lemma pop_present {V} (d : OrderedDict.t V) (k : string) (v : V) :
  NoDup (OrderedDict.keys d) -> (k, v) ∈ d ->
  OrderedDict.pop d k = Some (v, filter (fun kv => kv.1 <> k) d).
Proof.
  unfold OrderedDict.t, OrderedDict.keys.
  induction d as [|[k' v'] d IH]; intros Hnd Hin.
  - by apply elem_of_nil in Hin.
  - rewrite fmap_cons in Hnd. apply NoDup_cons in Hnd as [Hk' Hnd].
    simpl in Hk'. cbn [OrderedDict.pop].
    destruct (decide (k' = k)) as [->|Hne].
    + rewrite filter_cons_False by (simpl; tauto).
      rewrite filter_other_keys by done.
      apply elem_of_cons in Hin as [[= ->]|Hin]; [done|].
      exfalso. apply Hk'. by apply (list_elem_of_fmap_2 fst) in Hin.
    + apply elem_of_cons in Hin as [[= -> ->]|Hin]; [done|].
      rewrite (IH Hnd Hin).
      by rewrite filter_cons_True by (simpl; congruence).
Qed.

(** X1. [pop] on a dictionary: a key that is absent gives the [KeyError];
    a key that is present gives its value and leaves the other items, in
    their order. *)
Theorem pop_removes_exactly_the_key {V} (d : OrderedDict.t V) (k : string) :
  NoDup (OrderedDict.keys d) ->
  (k ∉ OrderedDict.keys d -> OrderedDict.pop d k = None) /\
  (forall v, (k, v) ∈ d ->
     OrderedDict.pop d k = Some (v, filter (fun kv => kv.1 <> k) d) /\
     k ∉ OrderedDict.keys (filter (fun kv => kv.1 <> k) d)).
Proof.
  intros Hnd. split; [apply pop_absent|].
  intros v Hin. split; [by apply pop_present|].
  unfold OrderedDict.keys. intros ([k' v'] & -> & Hf)%list_elem_of_fmap.
  by apply list_elem_of_filter in Hf as [Hne _].
Qed.

Lemma pop_removes_exactly_the_key_witness :
  let d : OrderedDict.t nat := [("a", 1%nat); ("b", 2%nat); ("c", 3%nat)] in
  ("z" ∉ OrderedDict.keys d -> OrderedDict.pop d "z" = None) /\
  (forall v, ("b", v) ∈ d ->
     OrderedDict.pop d "b" = Some (v, filter (fun kv => kv.1 <> "b") d) /\
     "b" ∉ OrderedDict.keys (filter (fun kv => kv.1 <> "b") d)).
Proof.
  split.
  - apply (pop_removes_exactly_the_key
             [("a", 1%nat); ("b", 2%nat); ("c", 3%nat)] "z").
    by apply (bool_decide_unpack _).
  - apply (pop_removes_exactly_the_key
             [("a", 1%nat); ("b", 2%nat); ("c", 3%nat)] "b").
    by apply (bool_decide_unpack _).
Defined.

Lemma setitem_keys_NoDup {V} (d : OrderedDict.t V) (k : string) (v : V) :
  NoDup (OrderedDict.keys d) -> NoDup (OrderedDict.keys (OrderedDict.setitem d k v)).
Proof.
  intros Hnd. destruct (decide (k ∈ OrderedDict.keys d)) as [Hin|Hnin].
  - by rewrite keys_setitem_present.
  - rewrite setitem_fresh by done. unfold OrderedDict.keys in *.
    rewrite fmap_app. apply NoDup_app. split; [done|].
    split; [|apply NoDup_singleton].
    intros k' Hk' ->%list_elem_of_singleton. done.
Qed.

Lemma setitem_elem {V} (d : OrderedDict.t V) (k : string) (v : V) :
  (k, v) ∈ OrderedDict.setitem d k v.
Proof.
  induction d as [|[k' v'] d IH]; simpl; [left|].
  destruct (decide (k' = k)) as [->|Hne]; [left|by right].
Qed.

Lemma setitem_filter {V} (d : OrderedDict.t V) (k : string) (v : V) :
  filter (fun kv => kv.1 <> k) (OrderedDict.setitem d k v)
  = filter (fun kv => kv.1 <> k) d.
Proof.
  unfold OrderedDict.t.
  induction d as [|[k' v'] d IH]; simpl.
  - by rewrite filter_cons_False by (simpl; tauto).
  - destruct (decide (k' = k)) as [->|Hne].
    + by rewrite !filter_cons_False by (simpl; tauto).
    + by rewrite !filter_cons_True, IH by (simpl; congruence).
Qed.

(** X2. Assignment and [pop] round trip: in a dictionary without
    duplicate keys, [d[k] = v] keeps the keys free of duplicates, and a
    [pop(k)] straight after gives [v] back and leaves the items that [d] had
    under the other keys, in their order, whether [k] was new or present. *)
Theorem setitem_then_pop {V} (d : OrderedDict.t V) (k : string) (v : V) :
  NoDup (OrderedDict.keys d) ->
  NoDup (OrderedDict.keys (OrderedDict.setitem d k v)) /\
  OrderedDict.pop (OrderedDict.setitem d k v) k
  = Some (v, filter (fun kv => kv.1 <> k) d).
Proof.
  intros Hnd. split; [by apply setitem_keys_NoDup|].
  rewrite (pop_present _ k v).
  - by rewrite setitem_filter.
  - by apply setitem_keys_NoDup.
  - apply setitem_elem.
Qed.

Lemma setitem_then_pop_witness :
  let d : OrderedDict.t nat := [("a", 1%nat); ("b", 2%nat); ("c", 3%nat)] in
  NoDup (OrderedDict.keys (OrderedDict.setitem d "b" 7%nat)) /\
  OrderedDict.pop (OrderedDict.setitem d "b" 7%nat) "b"
  = Some (7%nat, filter (fun kv => kv.1 <> "b") d).
Proof.
  apply (setitem_then_pop [("a", 1%nat); ("b", 2%nat); ("c", 3%nat)] "b" 7%nat).
  by apply (bool_decide_unpack _).
Defined.

(** X3. The two ends of the dictionary. After [d[k] = v] with a new key
    [k], [popitem(last=True)] gives back [(k, v)] and leaves [d], while
    [popitem(last=False)] gives the oldest item of [d] and leaves [k]
    behind the others. *)
Theorem popitem_ends {V} (d : OrderedDict.t V) (k : string) (v : V) :
  NoDup (OrderedDict.keys d) ->
  k ∉ OrderedDict.keys d ->
  OrderedDict.popitem true (OrderedDict.setitem d k v) = Some (k, v, d) /\
  OrderedDict.popitem false (OrderedDict.setitem d k v)
  = match d with
    | [] => Some (k, v, [])
    | (k0, v0) :: d' => Some (k0, v0, d' ++ [(k, v)])
    end.
Proof.
  intros Hnd Hk. rewrite setitem_fresh by done.
  assert (NoDup (OrderedDict.keys (d ++ [(k, v)]))) as Hnd'.
  { rewrite <- (setitem_fresh d k v) by done. by apply setitem_keys_NoDup. }
  unfold OrderedDict.popitem. split.
  - unfold OrderedDict.keys at 1. rewrite fmap_app. simpl. rewrite last_snoc.
    rewrite (pop_present _ k v Hnd') by (apply elem_of_app; right; left).
    unfold OrderedDict.t in *. rewrite filter_app.
    rewrite filter_other_keys by done.
    by rewrite filter_cons_False, app_nil_r by (simpl; tauto).
  - destruct d as [|[k0 v0] d']; simpl.
    + by destruct (decide (k = k)).
    + by destruct (decide (k0 = k0)).
Qed.

Lemma popitem_ends_witness :
  let d : OrderedDict.t nat := [("a", 1%nat); ("b", 2%nat)] in
  OrderedDict.popitem true (OrderedDict.setitem d "c" 3%nat)
    = Some ("c", 3%nat, d) /\
  OrderedDict.popitem false (OrderedDict.setitem d "c" 3%nat)
    = Some ("a", 1%nat, [("b", 2%nat); ("c", 3%nat)]).
Proof.
  apply (popitem_ends [("a", 1%nat); ("b", 2%nat)] "c" 3%nat);
    by apply (bool_decide_unpack _).
Defined.

(** ** [format_sql], the branches *)

Lemma adapt_seq_spec adapt_getquoted (l : list pyvalue) (qs acc : list string) :
  Forall2 (quoted adapt_getquoted) l qs ->
  adapt_seq adapt_getquoted l acc = Ret (acc ++ qs).
Proof.
  intros H. revert acc.
  induction H as [|v q l qs Hq _ IH]; intros acc; simpl.
  - by rewrite app_nil_r.
  - unfold quoted in Hq. rewrite Hq. simpl. by rewrite IH, <- app_assoc.
Qed.

(** X4. Positional parameters. For a non-empty list or tuple of
    parameters that [adapt] accepts, [format_sql] quotes every parameter, a
    [unicode] one after encoding it in UTF-8, and substitutes the tuple of
    the quoted texts, in the order of the parameters, once; a list and a
    tuple are treated alike. *)
Theorem format_sql_positional
    (adapt_getquoted : pyvalue -> res string)
    (str_mod : string -> fmt_args -> res string)
    (sql_tmpl : string) (l : list pyvalue) (qs : list string) :
  l <> [] ->
  Forall2 (quoted adapt_getquoted) l qs ->
  format_sql adapt_getquoted str_mod sql_tmpl (ParamsTuple l)
    = str_mod sql_tmpl (FmtTuple qs) /\
  format_sql adapt_getquoted str_mod sql_tmpl (ParamsList l)
    = str_mod sql_tmpl (FmtTuple qs).
Proof.
  intros Hne Hq. unfold format_sql. simpl.
  rewrite bool_decide_eq_false_2 by (by destruct l). simpl.
  by rewrite (adapt_seq_spec _ l qs []).
Qed.

Lemma format_sql_positional_witness :
  format_sql adapt_example py_mod "SELECT %s, %s"
    (ParamsTuple [PyInt 1; PyStr "it's"])
    = py_mod "SELECT %s, %s" (FmtTuple ["1"; "'it''s'"]) /\
  format_sql adapt_example py_mod "SELECT %s, %s"
    (ParamsList [PyInt 1; PyStr "it's"])
    = py_mod "SELECT %s, %s" (FmtTuple ["1"; "'it''s'"]).
Proof.
  apply (format_sql_positional adapt_example py_mod "SELECT %s, %s"
           [PyInt 1; PyStr "it's"] ["1"; "'it''s'"]).
  - discriminate.
  - repeat constructor.
Defined.

(** X5. The first positional parameter that [adapt] refuses decides the
    outcome: [format_sql] raises the exception of that parameter, whatever
    the template and the parameters after it are, and no text is
    returned. *)
Theorem format_sql_positional_failure
    (adapt_getquoted : pyvalue -> res string)
    (str_mod : string -> fmt_args -> res string)
    (sql_tmpl : string) (before after : list pyvalue) (v : pyvalue)
    (qs : list string) (e : exn) :
  Forall2 (quoted adapt_getquoted) before qs ->
  adapt_getquoted (encode_if_unicode v) = Raise e ->
  format_sql adapt_getquoted str_mod sql_tmpl (ParamsTuple (before ++ v :: after))
    = Raise e /\
  format_sql adapt_getquoted str_mod sql_tmpl (ParamsList (before ++ v :: after))
    = Raise e.
Proof.
  intros Hq He. unfold format_sql. simpl.
  rewrite bool_decide_eq_false_2 by (by destruct before). simpl.
  assert (forall acc, adapt_seq adapt_getquoted (before ++ v :: after) acc = Raise e)
    as ->; [|done].
  induction Hq as [|w q l qs' Hw _ IH]; intros acc; simpl.
  - by rewrite He.
  - unfold quoted in Hw. rewrite Hw. simpl. apply IH.
Qed.

Lemma format_sql_positional_failure_witness :
  format_sql adapt_refusing_none py_mod "SELECT %s, %s, %s"
    (ParamsTuple ([PyInt 1] ++ PyNone :: [PyInt 3]))
    = Raise (Exn Psycopg2Error "can't adapt") /\
  format_sql adapt_refusing_none py_mod "SELECT %s, %s, %s"
    (ParamsList ([PyInt 1] ++ PyNone :: [PyInt 3]))
    = Raise (Exn Psycopg2Error "can't adapt").
Proof.
  apply (format_sql_positional_failure adapt_refusing_none py_mod
           "SELECT %s, %s, %s" [PyInt 1] [PyInt 3] PyNone ["1"]).
  - repeat constructor.
  - reflexivity.
Defined.

Lemma foldl_insert_list_to_map {A} (l : list (string * A)) :
  NoDup l.*1 ->
  foldl (fun (m : gmap string A) kv => <[kv.1 := kv.2]> m) ∅ l = list_to_map l.
Proof.
  induction l as [|[k c] l IH] using rev_ind; [done|].
  rewrite fmap_app. intros (Hnd & Hdisj & _)%NoDup_app.
  rewrite foldl_app. simpl. rewrite (IH Hnd).
  rewrite list_to_map_snoc; [done|].
  intros Hin. apply (Hdisj _ Hin). left.
Qed.

Lemma adapt_items_spec adapt_getquoted (quote : pyvalue -> string)
    (items : list (string * pyvalue)) (acc : gmap string string) :
  Forall (fun kv => quoted adapt_getquoted kv.2 (quote kv.2)) items ->
  adapt_items adapt_getquoted items acc
  = Ret (foldl (fun m kv => <[kv.1 := kv.2]> m) acc (prod_map id quote <$> items)).
Proof.
  intros H. revert acc. induction H as [|[k v] items Hq _ IH]; intros acc; [done|].
  simpl in *. unfold quoted in Hq. rewrite Hq. simpl. by rewrite IH.
Qed.

(** X6. Named parameters. For a non-empty dictionary of parameters that
    [adapt] accepts, [format_sql] substitutes a dictionary with exactly the
    keys of the parameters, each with the quoted text of its parameter. *)
Theorem format_sql_named
    (adapt_getquoted : pyvalue -> res string)
    (str_mod : string -> fmt_args -> res string)
    (quote : pyvalue -> string)
    (sql_tmpl : string) (d : gmap string pyvalue) :
  d <> ∅ ->
  (forall k v, d !! k = Some v -> quoted adapt_getquoted v (quote v)) ->
  format_sql adapt_getquoted str_mod sql_tmpl (ParamsDict d)
  = str_mod sql_tmpl (FmtDict (quote <$> d)).
Proof.
  intros Hne Hq. unfold format_sql. simpl.
  rewrite bool_decide_eq_false_2 by (by rewrite map_size_empty_iff). simpl.
  rewrite (adapt_items_spec adapt_getquoted quote).
  - rewrite foldl_insert_list_to_map.
    + rewrite list_to_map_fmap, list_to_map_to_list. simpl.
      by destruct (str_mod sql_tmpl (FmtDict (quote <$> d))).
    + assert (forall l : list (string * pyvalue),
                (prod_map id quote <$> l).*1 = l.*1) as Hfst.
      { induction l as [|[k v] l IH]; [done|]. simpl. by f_equal. }
      rewrite Hfst. apply NoDup_fst_map_to_list.
  - apply Forall_forall. intros [k v] Hkv. simpl.
    apply (Hq k). by apply elem_of_map_to_list.
Qed.

Lemma format_sql_named_witness :
  format_sql adapt_example py_mod "SELECT %(one)s, %(two)s"
    (ParamsDict (<["one" := PyInt 1]> {["two" := PyStr "it's"]}))
  = py_mod "SELECT %(one)s, %(two)s"
      (FmtDict (quote_example <$> <["one" := PyInt 1]> {["two" := PyStr "it's"]})).
Proof.
  apply (format_sql_named adapt_example py_mod quote_example
           "SELECT %(one)s, %(two)s"
           (<["one" := PyInt 1]> {["two" := PyStr "it's"]})).
  - apply (bool_decide_unpack _). vm_compute. reflexivity.
  - intros k v _. unfold quoted, quote_example. by destruct v.
Defined.

(** The parameters that are no collection. With parameters that
    Python holds false ([None], an empty tuple, list or dictionary, [0], an
    empty string) [format_sql] returns the template as it is, without any
    substitution, so that a doubled percent sign stays doubled; with any
    other value that is not a dictionary, a list or a tuple it raises
    [UnboundLocalError]. *)
Theorem format_sql_without_collection
    (adapt_getquoted : pyvalue -> res string)
    (str_mod : string -> fmt_args -> res string)
    (sql_tmpl : string) (p : params) :
  match p with
  | ParamsDict d => d = ∅ -> format_sql adapt_getquoted str_mod sql_tmpl p = Ret sql_tmpl
  | ParamsList l | ParamsTuple l =>
      l = [] -> format_sql adapt_getquoted str_mod sql_tmpl p = Ret sql_tmpl
  | ParamsNone => format_sql adapt_getquoted str_mod sql_tmpl p = Ret sql_tmpl
  | ParamsOther v =>
      format_sql adapt_getquoted str_mod sql_tmpl p
      = if params_truthy p
        then Raise (Exn UnboundLocalError
                      "local variable 'adapted' referenced before assignment")
        else Ret sql_tmpl
  end.
Proof.
  destruct p as [|d|l|l|v]; try done; try (by intros ->).
Qed.

(** The assertion of [execute]. A command name other than
    ['fetchall'] and ['fetchone'] (the default [''] is one) makes [execute]
    raise [AssertionError] before anything else: the parameters are not even
    formatted, and the object is left as it was. *)
Theorem execute_asserts_command
    (adapt_getquoted : pyvalue -> res string)
    (str_mod : string -> fmt_args -> res string)
    (sql_tmpl : string) (p : params) (name : string)
    (callback : option cbid) (timeout : Z) (key : string) (now : Z)
    (s : DbQueryQueue) :
  name <> "fetchall" ->
  name <> "fetchone" ->
  execute adapt_getquoted str_mod sql_tmpl p name callback timeout key now s
  = (Raise (Exn AssertionError ""), s, []).
Proof.
  intros H1 H2. unfold execute, parse_command.
  destruct (decide (name = "fetchall")); [done|].
  by destruct (decide (name = "fetchone")).
Qed.

Lemma execute_asserts_command_witness :
  execute adapt_example py_mod "SELECT %s, %s" (ParamsTuple [PyInt 1]) ""
    (Some 1%nat) 300000 "id-1" 0 new_queue
  = (Raise (Exn AssertionError ""), new_queue, []).
Proof.
  apply (execute_asserts_command adapt_example py_mod "SELECT %s, %s"
           (ParamsTuple [PyInt 1]) "" (Some 1%nat) 300000 "id-1" 0 new_queue);
    discriminate.
Defined.

(** X7. The order of the queue is the order of the enqueues: two
    successful calls of [execute] under two different ids, neither of them
    queued, put their entries behind the entries already queued, the first
    before the second, each with its own SQL, callback and expiry time. *)
Theorem enqueue_order
    (adapt_getquoted : pyvalue -> res string)
    (str_mod : string -> fmt_args -> res string)
    (tmpl1 tmpl2 : string) (p1 p2 : params) (name1 name2 : string)
    (c1 c2 : command) (sql1 sql2 : string) (cb1 cb2 : option cbid)
    (timeout1 timeout2 : Z) (key1 key2 : string) (now1 now2 : Z)
    (s : DbQueryQueue) :
  parse_command name1 = Some c1 ->
  parse_command name2 = Some c2 ->
  format_sql adapt_getquoted str_mod tmpl1 p1 = Ret sql1 ->
  format_sql adapt_getquoted str_mod tmpl2 p2 = Ret sql2 ->
  key1 ∉ OrderedDict.keys (queue s) ->
  key2 ∉ OrderedDict.keys (queue s) ->
  key1 <> key2 ->
  exists s1 s2,
    execute adapt_getquoted str_mod tmpl1 p1 name1 cb1 timeout1 key1 now1 s
      = (Ret tt, s1, []) /\
    execute adapt_getquoted str_mod tmpl2 p2 name2 cb2 timeout2 key2 now2 s1
      = (Ret tt, s2, []) /\
    queue s2 = queue s ++ [(key1, Entry sql1 cb1 key1 c1 (now1 + timeout1));
                           (key2, Entry sql2 cb2 key2 c2 (now2 + timeout2))] /\
    temp_queries s2 = temp_queries s /\
    noresult_queue s2 = noresult_queue s.
Proof.
  intros Hc1 Hc2 Hf1 Hf2 Hk1 Hk2 Hne.
  eexists _, _. split; [by apply execute_appends|].
  split.
  - apply execute_appends; try done. simpl.
    unfold OrderedDict.keys in *. rewrite fmap_app. simpl.
    intros [Hin|Hin%list_elem_of_singleton]%elem_of_app; done.
  - simpl. by rewrite <- app_assoc.
Qed.

Lemma enqueue_order_witness :
  exists s1 s2,
    execute adapt_example py_mod "SELECT %s" (ParamsTuple [PyInt 1]) "fetchall"
      (Some 1%nat) 300000 "A" 0 new_queue = (Ret tt, s1, []) /\
    execute adapt_example py_mod "SELECT %s" (ParamsTuple [PyInt 2]) "fetchone"
      (Some 2%nat) 5000 "B" 10 s1 = (Ret tt, s2, []) /\
    queue s2 = queue new_queue
               ++ [("A", Entry "SELECT 1" (Some 1%nat) "A" Fetchall (0 + 300000));
                   ("B", Entry "SELECT 2" (Some 2%nat) "B" Fetchone (10 + 5000))] /\
    temp_queries s2 = temp_queries new_queue /\
    noresult_queue s2 = noresult_queue new_queue.
Proof.
  apply (enqueue_order adapt_example py_mod "SELECT %s" "SELECT %s"
           (ParamsTuple [PyInt 1]) (ParamsTuple [PyInt 2]) "fetchall" "fetchone"
           Fetchall Fetchone "SELECT 1" "SELECT 2" (Some 1%nat) (Some 2%nat)
           300000 5000 "A" "B" 0 10 new_queue);
    try reflexivity; try discriminate;
    apply (bool_decide_unpack _); vm_compute; reflexivity.
Defined.

Lemma NoDup_keys_functional {V} (d : list (string * V)) (k : string) (v1 v2 : V) :
  NoDup d.*1 -> (k, v1) ∈ d -> (k, v2) ∈ d -> v1 = v2.
Proof.
  induction d as [|[k0 v0] d IH]; intros Hnd H1 H2.
  - by apply elem_of_nil in H1.
  - rewrite fmap_cons in Hnd. apply NoDup_cons in Hnd as [Hk0 Hnd]. simpl in Hk0.
    apply elem_of_cons in H1 as [Heq1|H1];
      apply elem_of_cons in H2 as [Heq2|H2]; simplify_eq; try done.
    + exfalso. apply Hk0. by apply (list_elem_of_fmap_2 fst) in H2.
    + exfalso. apply Hk0. by apply (list_elem_of_fmap_2 fst) in H1.
    + by apply IH.
Qed.

Lemma setitem_present_elems {V} (d : OrderedDict.t V) (k : string) (v : V) :
  k ∈ OrderedDict.keys d ->
  length (OrderedDict.setitem d k v) = length d /\
  forall k' v', k' <> k -> (k', v') ∈ OrderedDict.setitem d k v <-> (k', v') ∈ d.
Proof.
  unfold OrderedDict.keys.
  induction d as [|[k0 v0] d IH]; intros Hin; [by apply elem_of_nil in Hin|].
  cbn [OrderedDict.setitem]. destruct (decide (k0 = k)) as [->|Hne].
  - split; [done|]. intros k' v' Hk'. rewrite !elem_of_cons.
    split; (intros [[= -> ->]|?]; [done|by right]).
  - rewrite fmap_cons in Hin. apply elem_of_cons in Hin as [Hin|Hin];
      [simpl in Hin; congruence|].
    destruct (IH Hin) as [Hlen Hiff]. split; [simpl; by rewrite Hlen|].
    intros k' v' Hk'. rewrite !elem_of_cons. by rewrite Hiff.
Qed.

(** X8. An id that is already queued. When [execute] is given the id of
    a queued entry (two equal answers of [uuid4]), the new entry takes the
    place of the old one: the queue keeps its length and the order of its
    ids, the entries under the other ids are untouched, and the entry under
    the id is the new one, so that the continuation of the old entry is no
    longer queued. *)
Theorem execute_replaces_queued_id
    (adapt_getquoted : pyvalue -> res string)
    (str_mod : string -> fmt_args -> res string)
    (sql_tmpl : string) (p : params) (name : string) (c : command)
    (sql : string) (callback : option cbid) (timeout : Z) (key : string)
    (now : Z) (s : DbQueryQueue) :
  parse_command name = Some c ->
  format_sql adapt_getquoted str_mod sql_tmpl p = Ret sql ->
  NoDup (OrderedDict.keys (queue s)) ->
  key ∈ OrderedDict.keys (queue s) ->
  exists s',
    execute adapt_getquoted str_mod sql_tmpl p name callback timeout key now s
      = (Ret tt, s', []) /\
    OrderedDict.keys (queue s') = OrderedDict.keys (queue s) /\
    (forall k item, k <> key -> (k, item) ∈ queue s' <-> (k, item) ∈ queue s) /\
    (forall item, (key, item) ∈ queue s' <->
                  item = Entry sql callback key c (now + timeout)).
Proof.
  intros Hc Hf Hnd Hin.
  eexists. split.
  { unfold execute, mbind, lift, modify. by rewrite Hc, Hf. }
  simpl. split; [by apply keys_setitem_present|].
  split; [by apply setitem_present_elems|].
  intros item. split.
  - intros Hitem.
    pose proof (setitem_keys_NoDup (queue s) key
                  (Entry sql callback key c (now + timeout)) Hnd) as Hnd'.
    pose proof (setitem_elem (queue s) key
                  (Entry sql callback key c (now + timeout))) as Hnew.
    exact (NoDup_keys_functional _ _ _ _ Hnd' Hitem Hnew).
  - intros ->. apply setitem_elem.
Qed.

Lemma execute_replaces_queued_id_witness :
  exists s',
    execute adapt_example py_mod "SELECT 9" ParamsNone "fetchone" None 7 "B" 1
      queue_abc = (Ret tt, s', []) /\
    OrderedDict.keys (queue s') = OrderedDict.keys (queue queue_abc) /\
    (forall k item, k <> "B" -> (k, item) ∈ queue s' <-> (k, item) ∈ queue queue_abc) /\
    (forall item, ("B", item) ∈ queue s' <->
                  item = Entry "SELECT 9" None "B" Fetchone (1 + 7)).
Proof.
  apply (execute_replaces_queued_id adapt_example py_mod "SELECT 9" ParamsNone
           "fetchone" Fetchone "SELECT 9" None 7 "B" 1 queue_abc).
  - reflexivity.
  - reflexivity.
  - apply (bool_decide_unpack _). vm_compute. reflexivity.
  - apply (bool_decide_unpack _). vm_compute. reflexivity.
Defined.

(** ** [poller], run after run *)

(** X9. An idle run. When the queue is empty, or when [queue_length] is
    zero or negative, a run of [poller] submits nothing, calls nothing,
    leaves the queue as it is and arranges its next run [poll_timeout]
    later; with such a [queue_length] no entry is ever drained. *)
Theorem poller_idle (cb_run : cbid -> callback_arg -> res unit)
    (wait_all : list string -> list dbresult) (now later : Z)
    (s : DbQueryQueue) :
  queue s = [] \/ queue_length s <= 0 ->
  poller cb_run wait_all now later s
  = (Ret tt, set_temp_queries [] s,
     [AddTimeout (now + poll_timeout s) PollerMethod]).
Proof.
  intros H. unfold poller, poller_drain.
  unfold mbind at 1 2 3. unfold modify at 1. unfold get at 1.
  cbn [temp_queries queue queue_length set_temp_queries].
  assert (drain_loop 0 (queue_length s) (queue s) [] = (queue s, [])) as ->.
  { destruct H as [->|Hql]; [done|].
    destruct (queue s) as [|[uid item] q]; [done|]. simpl.
    by destruct (Z.ltb_spec 0 (queue_length s)); [lia|]. }
  unfold modify, mbind, emit, mret. simpl. by destruct s.
Qed.

Lemma poller_idle_witness :
  poller cb_example wait_all_example 500 600 new_queue
  = (Ret tt, set_temp_queries [] new_queue,
     [AddTimeout (500 + poll_timeout new_queue) PollerMethod]).
Proof.
  apply (poller_idle cb_example wait_all_example 500 600 new_queue).
  left. reflexivity.
Defined.

Lemma reschedulings_app evs evs' :
  reschedulings (evs ++ evs') = reschedulings evs ++ reschedulings evs'.
Proof. unfold reschedulings. apply omap_app. Qed.

Lemma reschedulings_submissions (batch : OrderedDict.t entry) :
  reschedulings (map (fun kv => DbExecute (e_sql kv.2) (GenCallback kv.1)) batch)
  = [].
Proof. by induction batch. Qed.

Lemma reschedulings_delivery_events cb_run l :
  reschedulings (concat (map (delivery_events cb_run) l)) = [].
Proof.
  induction l as [|ir l IH]; [done|].
  simpl. rewrite reschedulings_app, IH. unfold delivery_events.
  destruct (delivery ir) as [[cb arg]|];
    destruct (delivery_failure cb_run ir); done.
Qed.

(** X10. Polling never stops by itself. A run of [poller] that no
    exception leaves arranges exactly one next run, and does so last: at
    once ([add_callback]) when it delivered a batch and entries are still
    queued, [poll_timeout] after the end of the deliveries when it delivered
    a batch and the queue is empty, and [poll_timeout] after its start when
    it drained nothing. *)
Theorem poller_reschedules_once (cb_run : cbid -> callback_arg -> res unit)
    (wait_all : list string -> list dbresult) (now later : Z)
    (s : DbQueryQueue) :
  queue_wf (queue s) ->
  let batch := take (Z.to_nat (queue_length s)) (queue s) in
  length (wait_all (OrderedDict.keys batch)) = length batch ->
  Forall (delivery_contained cb_run)
         (zip batch (wait_all (OrderedDict.keys batch))) ->
  exists s' evs,
    poller cb_run wait_all now later s = (Ret tt, s', evs) /\
    let next :=
      if OrderedDict.nonempty batch then
        if OrderedDict.nonempty (queue s') then AddCallback PollerMethod
        else AddTimeout (later + poll_timeout s) PollerMethod
      else AddTimeout (now + poll_timeout s) PollerMethod in
    reschedulings evs = [next] /\ last evs = Some next.
Proof.
  intros Hq batch Hlen Hc.
  pose proof (poller_spec cb_run wait_all now later s Hq Hlen Hc) as Hp.
  simpl in Hp. fold batch in Hp.
  eexists _, _. split; [exact Hp|].
  destruct (OrderedDict.nonempty batch); [|done].
  cbn zeta. unfold reschedule. cbn [queue set_temp_queries set_queue poll_timeout].
  rewrite !reschedulings_app, reschedulings_submissions,
    reschedulings_delivery_events, !app_assoc, last_snoc.
  by destruct (OrderedDict.nonempty (drop _ _)).
Qed.

Lemma poller_reschedules_once_witness :
  let batch := take (Z.to_nat (queue_length queue_abc)) (queue queue_abc) in
  exists s' evs,
    poller cb_example wait_all_example 500 600 queue_abc = (Ret tt, s', evs) /\
    let next :=
      if OrderedDict.nonempty batch then
        if OrderedDict.nonempty (queue s') then AddCallback PollerMethod
        else AddTimeout (600 + poll_timeout queue_abc) PollerMethod
      else AddTimeout (500 + poll_timeout queue_abc) PollerMethod in
    reschedulings evs = [next] /\ last evs = Some next.
Proof.
  apply (poller_reschedules_once cb_example wait_all_example 500 600 queue_abc).
  - split; [by apply (bool_decide_unpack _)|by repeat constructor].
  - reflexivity.
  - repeat constructor; intros x; vm_compute; discriminate.
Defined.

Lemma zip_answers (answer : string -> dbresult) (l : OrderedDict.t entry) :
  zip l (map answer (OrderedDict.keys l))
  = map (fun kv => (kv, answer kv.1)) l.
Proof.
  unfold OrderedDict.keys. induction l as [|kv l IH]; [done|].
  simpl. by f_equal.
Qed.

(** X11. The queue is drained in order over the runs. When [queue_length]
    is positive and the event loop runs [poller] often enough for the
    entries queued, with nothing enqueued in between and every failure of a
    delivery an instance of [Exception], every queued entry is submitted
    once and every continuation is called once, with the data of its own
    cursor, in the order of the queue across the runs; the queue ends
    empty and nothing stays in flight. *)
Theorem queue_drains_in_order (cb_run : cbid -> callback_arg -> res unit)
    (answer : string -> dbresult) (clock : list (Z * Z)) (s : DbQueryQueue) :
  queue_wf (queue s) ->
  temp_queries s = [] ->
  0 < queue_length s ->
  Forall (delivery_contained cb_run)
         (map (fun kv => (kv, answer kv.1)) (queue s)) ->
  (length (queue s) <= length clock * Z.to_nat (queue_length s))%nat ->
  exists s' evs,
    poller_runs cb_run (map answer) clock s = (Ret tt, s', evs) /\
    queue s' = [] /\
    temp_queries s' = [] /\
    submitted evs = map e_sql (OrderedDict.values (queue s)) /\
    calls evs = omap delivery (map (fun kv => (kv, answer kv.1)) (queue s)).
Proof.
  revert s. induction clock as [|[now later] clock IH];
    intros s Hwf Htemp Hql Hc Hlen.
  - simpl in Hlen. destruct (queue s) eqn:Hq; [|simpl in Hlen; lia].
    exists s, []. by rewrite Hq.
  - set (n := Z.to_nat (queue_length s)) in *.
    set (batch := take n (queue s)).
    assert (Forall (delivery_contained cb_run)
              (zip batch (map answer (OrderedDict.keys batch)))) as Hcb.
    { rewrite zip_answers. unfold batch. rewrite <- List.firstn_map.
      by apply Forall_take. }
    assert (length (map answer (OrderedDict.keys batch)) = length batch) as Hl.
    { unfold OrderedDict.keys. by rewrite length_map, length_fmap. }
    pose proof (poller_spec cb_run (map answer) now later s Hwf Hl Hcb) as Hp.
    cbn zeta in Hp. fold n batch in Hp.
    set (s1 := set_temp_queries [] (set_queue (drop n (queue s)) s)) in *.
    destruct (IH s1) as (s' & evs' & Hruns & Hq' & Ht' & Hsub' & Hcalls').
    + simpl. eapply queue_wf_sublist; [apply sublist_drop|done].
    + done.
    + done.
    + simpl. rewrite <- List.skipn_map. by apply Forall_drop.
    + simpl. rewrite length_drop. simpl in Hlen. fold n. lia.
    + unfold poller_runs in *. cbn [for_each fst snd]. unfold mbind at 1.
      rewrite Hp, Hruns. eexists _, _. split; [done|].
      split; [done|]. split; [done|].
      rewrite submitted_app, calls_app, Hsub', Hcalls'. simpl.
      assert (map e_sql (OrderedDict.values (queue s))
              = map e_sql (OrderedDict.values batch)
                ++ map e_sql (OrderedDict.values (drop n (queue s)))) as ->.
      { rewrite <- (take_drop n (queue s)) at 1. fold batch.
        unfold OrderedDict.values. by rewrite fmap_app, map_app. }
      assert (omap delivery (map (fun kv => (kv, answer kv.1)) (queue s))
              = omap delivery (map (fun kv => (kv, answer kv.1)) batch)
                ++ omap delivery
                     (map (fun kv => (kv, answer kv.1)) (drop n (queue s)))) as ->.
      { rewrite <- (take_drop n (queue s)) at 1. fold batch.
        by rewrite map_app, omap_app. }
      destruct (OrderedDict.nonempty batch) eqn:Hb.
      * rewrite !submitted_app, !calls_app, submitted_submissions,
          submitted_delivery_events, submitted_reschedule, calls_submissions,
          calls_delivery_events, calls_reschedule, zip_answers.
        by rewrite !app_nil_r.
      * by destruct batch.
Qed.

Lemma queue_drains_in_order_witness :
  exists s' evs,
    poller_runs cb_example (map answer) [(500, 600); (600, 700)] queue_abc
      = (Ret tt, s', evs) /\
    queue s' = [] /\
    temp_queries s' = [] /\
    submitted evs = map e_sql (OrderedDict.values (queue queue_abc)) /\
    calls evs
    = omap delivery (map (fun kv => (kv, answer kv.1)) (queue queue_abc)).
Proof.
  apply (queue_drains_in_order cb_example answer [(500, 600); (600, 700)]
           queue_abc).
  - split; [by apply (bool_decide_unpack _)|by repeat constructor].
  - reflexivity.
  - reflexivity.
  - repeat constructor; intros x; vm_compute; discriminate.
  - vm_compute. lia.
Defined.

(** ** The expiry sweep, when every entry has a callback *)

Lemma expiry_notices_filter (cur_time : Z) (q : OrderedDict.t entry) :
  expiry_notices cur_time q
  = map (fun cb => AddCallback (PartialNone cb))
        (omap (fun kv : string * entry => e_callback kv.2)
              (filter (expired cur_time) q)).
Proof.
  unfold OrderedDict.t, expiry_notices in *.
  induction q as [|[k v] q IH]; [done|].
  cbn [omap list_omap snd].
  destruct (Z.gtb_spec cur_time (e_expires_at v)) as [Hexp|Hkeep].
  - rewrite filter_cons_True by done. cbn [omap list_omap snd].
    destruct (e_callback v); simpl; by rewrite IH.
  - rewrite filter_cons_False by (unfold expired; simpl; lia). apply IH.
Qed.

(** X12. A sweep over a queue in which every entry has a callback runs
    to its end: it keeps exactly the entries with [cur_time <= expires_at],
    in their order, hands the continuation of every other entry, applied to
    [None], to the event loop once, in the order of the queue, does nothing
    else outside, and leaves the entries in flight alone. *)
Theorem sweep_notifies_expired (now : Z) (s : DbQueryQueue) :
  NoDup (OrderedDict.keys (queue s)) ->
  Forall (fun kv => is_Some (e_callback kv.2)) (queue s) ->
  exists s',
    purge_expired now s
    = (Ret tt, s',
       map (fun cb => AddCallback (PartialNone cb))
           (omap (fun kv : string * entry => e_callback kv.2)
                 (filter (expired now) (queue s)))) /\
    queue s' = filter (unexpired now) (queue s) /\
    temp_queries s' = temp_queries s /\
    noresult_queue s' = noresult_queue s.
Proof.
  intros Hnd Hcb. eexists. split.
  - rewrite purge_expired_callable by done. by rewrite expiry_notices_filter.
  - done.
Qed.

Lemma sweep_notifies_expired_witness :
  exists s',
    purge_expired 200 queue_expiring
    = (Ret tt, s',
       map (fun cb => AddCallback (PartialNone cb))
           (omap (fun kv : string * entry => e_callback kv.2)
                 (filter (expired 200) (queue queue_expiring)))) /\
    queue s' = filter (unexpired 200) (queue queue_expiring) /\
    temp_queries s' = temp_queries queue_expiring /\
    noresult_queue s' = noresult_queue queue_expiring.
Proof.
  apply (sweep_notifies_expired 200 queue_expiring).
  - apply (bool_decide_unpack _). vm_compute. reflexivity.
  - repeat constructor; by eexists.
Defined.

(** X13. No entry is dropped before its time. Whatever a sweep does, run
    to its end or stop on an entry without a callback, an entry whose
    [expires_at] the clock has not passed ([cur_time <= expires_at]) is
    still queued after it, no entry appears that was not queued, and the
    entries in flight are left alone. *)
Theorem sweep_keeps_unexpired (now : Z) (s s' : DbQueryQueue)
    (r : res unit) (evs : list event) :
  NoDup (OrderedDict.keys (queue s)) ->
  purge_expired now s = (r, s', evs) ->
  (forall kv, kv ∈ queue s -> now <= e_expires_at kv.2 -> kv ∈ queue s') /\
  (forall kv, kv ∈ queue s' -> kv ∈ queue s) /\
  temp_queries s' = temp_queries s.
Proof.
  intros Hnd Hrun.
  destruct (purge_expired_state _ _ _ _ _ Hnd Hrun) as [Ht [->| ->]].
  - done.
  - repeat split; [| |done].
    + intros kv Hkv Hle. by apply list_elem_of_filter.
    + intros kv Hkv. by apply list_elem_of_filter in Hkv as [_ ?].
Qed.

Lemma sweep_keeps_unexpired_witness :
  (forall kv, kv ∈ queue queue_a_then_none -> 5000 <= e_expires_at kv.2 ->
              kv ∈ queue (purge_expired 5000 queue_a_then_none).1.2) /\
  (forall kv, kv ∈ queue (purge_expired 5000 queue_a_then_none).1.2 ->
              kv ∈ queue queue_a_then_none) /\
  temp_queries (purge_expired 5000 queue_a_then_none).1.2
  = temp_queries queue_a_then_none.
Proof.
  apply (sweep_keeps_unexpired 5000 queue_a_then_none
           (purge_expired 5000 queue_a_then_none).1.2
           (purge_expired 5000 queue_a_then_none).1.1
           (purge_expired 5000 queue_a_then_none).2).
  - apply (bool_decide_unpack _). vm_compute. reflexivity.
  - vm_compute. reflexivity.
Defined.

Lemma filter_unexpired_twice (now1 now2 : Z) (q : list (string * entry)) :
  now1 <= now2 ->
  filter (unexpired now2) (filter (unexpired now1) q) = filter (unexpired now2) q.
Proof.
  intros Hle. induction q as [|kv q IH]; [done|].
  destruct (decide (unexpired now1 kv)) as [H1|H1].
  - rewrite (filter_cons_True (unexpired now1)) by done.
    destruct (decide (unexpired now2 kv)) as [H2|H2].
    + by rewrite !(filter_cons_True (unexpired now2)), IH by done.
    + by rewrite !(filter_cons_False (unexpired now2)), IH by done.
  - rewrite (filter_cons_False (unexpired now1)) by done.
    rewrite (filter_cons_False (unexpired now2)); [done|].
    unfold unexpired in *. lia.
Qed.

Lemma expiry_notices_twice (now1 now2 : Z) (q : list (string * entry)) :
  now1 <= now2 ->
  Forall (fun kv => is_Some (e_callback kv.2)) q ->
  expiry_notices now1 q ++ expiry_notices now2 (filter (unexpired now1) q)
  ≡ₚ expiry_notices now2 q.
Proof.
  intros Hle Hcb. unfold expiry_notices.
  induction Hcb as [|[k v] q [cb Hcb] _ IH]; [done|]. simpl in Hcb.
  cbn [omap list_omap snd]. rewrite Hcb. simpl.
  destruct (Z.gtb_spec now1 (e_expires_at v)) as [H1|H1].
  - rewrite filter_cons_False by (unfold unexpired; simpl; lia).
    destruct (Z.gtb_spec now2 (e_expires_at v)) as [H2|H2]; [|lia].
    simpl. by rewrite IH.
  - rewrite filter_cons_True by done. cbn [omap list_omap snd]. rewrite Hcb.
    destruct (Z.gtb_spec now2 (e_expires_at v)) as [H2|H2]; simpl.
    + rewrite <- Permutation_middle. by rewrite IH.
    + apply IH.
Qed.

(** X14. Sweeps compose. Over a queue in which every entry has a
    callback, a sweep followed by a later sweep, with nothing enqueued or
    drained in between, leaves the queue that the later sweep alone would
    leave, and the two together hand to the event loop the notices that the
    later sweep alone would hand, each once: an entry that the first sweep
    has expired is never notified again. *)
Theorem sweeps_compose (now1 now2 : Z) (s : DbQueryQueue) :
  NoDup (OrderedDict.keys (queue s)) ->
  Forall (fun kv => is_Some (e_callback kv.2)) (queue s) ->
  now1 <= now2 ->
  exists s1 evs1 s2 evs2 evs,
    purge_expired now1 s = (Ret tt, s1, evs1) /\
    purge_expired now2 s1 = (Ret tt, s2, evs2) /\
    purge_expired now2 s = (Ret tt, s2, evs) /\
    evs1 ++ evs2 ≡ₚ evs.
Proof.
  intros Hnd Hcb Hle.
  assert (NoDup (OrderedDict.keys (filter (unexpired now1) (queue s)))) as Hnd1.
  { eapply sublist_NoDup; [done|]. unfold OrderedDict.keys.
    apply fmap_sublist, sublist_filter. }
  assert (Forall (fun kv => is_Some (e_callback kv.2))
                 (filter (unexpired now1) (queue s))) as Hcb1.
  { rewrite Forall_forall in *. intros kv Hkv. apply Hcb.
    by apply list_elem_of_filter in Hkv as [_ ?]. }
  eexists _, _, _, _, _.
  split; [by apply purge_expired_callable|].
  split; [by apply purge_expired_callable|].
  split.
  - rewrite purge_expired_callable by done. simpl.
    rewrite filter_unexpired_twice by done. by destruct s.
  - simpl. by apply expiry_notices_twice.
Qed.

Lemma sweeps_compose_witness :
  exists s1 evs1 s2 evs2 evs,
    purge_expired 150 queue_expiring = (Ret tt, s1, evs1) /\
    purge_expired 250 s1 = (Ret tt, s2, evs2) /\
    purge_expired 250 queue_expiring = (Ret tt, s2, evs) /\
    evs1 ++ evs2 ≡ₚ evs.
Proof.
  apply (sweeps_compose 150 250 queue_expiring).
  - apply (bool_decide_unpack _). vm_compute. reflexivity.
  - repeat constructor; by eexists.
  - lia.
Defined.

(** ** The no-result queue, as a whole *)

(** X15. Enqueueing a statement. [execute_noresult] under an id that is
    not queued raises what the substitution raises and leaves the object as
    it was, or puts the formatted statement behind the queued ones; it hands
    a flush to the event loop exactly when the queue has then reached
    [noresult_queue_length], and never flushes by itself. *)
Theorem enqueue_noresult_schedules_flush
    (adapt_getquoted : pyvalue -> res string)
    (str_mod : string -> fmt_args -> res string)
    (sql_tmpl : string) (p : params) (callback : option cbid) (key : string)
    (s : DbQueryQueue) :
  key ∉ OrderedDict.keys (noresult_queue s) ->
  match format_sql adapt_getquoted str_mod sql_tmpl p with
  | Raise e =>
      execute_noresult adapt_getquoted str_mod sql_tmpl p callback key s
      = (Raise e, s, [])
  | Ret sql =>
      execute_noresult adapt_getquoted str_mod sql_tmpl p callback key s
      = (Ret tt,
         set_noresult_queue (noresult_queue s ++ [(key, (sql, callback))]) s,
         if noresult_queue_length s <=? Z.of_nat (length (noresult_queue s)) + 1
         then [AddCallback FlushMethod] else [])
  end.
Proof.
  intros Hkey.
  destruct (format_sql adapt_getquoted str_mod sql_tmpl p) as [sql|e] eqn:Hf.
  - rewrite (execute_noresult_ok _ _ _ _ _ _ _ sql Hf). cbn zeta.
    rewrite setitem_fresh by done. rewrite length_app. simpl.
    replace (Z.of_nat (length (noresult_queue s) + 1))
      with (Z.of_nat (length (noresult_queue s)) + 1) by lia.
    rewrite Z.geb_leb. done.
  - unfold execute_noresult, mbind, lift. by rewrite Hf.
Qed.

Lemma enqueue_noresult_schedules_flush_witness :
  execute_noresult adapt_example py_mod "INSERT %s" (ParamsTuple [PyInt 4])
    None "D" (set_noresult_queue (noresult_queue noresult_abc) (init 200 2 1000 4))
  = (Ret tt,
     set_noresult_queue
       (noresult_queue noresult_abc ++ [("D", ("INSERT 4", None))])
       (init 200 2 1000 4),
     [AddCallback FlushMethod]).
Proof.
  assert ("D" ∉ OrderedDict.keys
            (noresult_queue
               (set_noresult_queue (noresult_queue noresult_abc)
                  (init 200 2 1000 4)))) as Hkey.
  { apply (bool_decide_unpack _). vm_compute. reflexivity. }
  exact (enqueue_noresult_schedules_flush adapt_example py_mod "INSERT %s"
           (ParamsTuple [PyInt 4]) None "D"
           (set_noresult_queue (noresult_queue noresult_abc) (init 200 2 1000 4))
           Hkey).
Defined.

Lemma execute_noresult_queue_nonempty (now : Z) (s : DbQueryQueue) :
  noresult_queue s <> [] ->
  execute_noresult_queue now s
  = (Ret tt,
     set_noresult_last_time (Some now) (set_noresult_queue [] s),
     [DbExecute
        (String.concat (";" +:+ newline)
           (map fst (OrderedDict.values (noresult_queue s))))
        (PerformCallbacks (omap snd (OrderedDict.values (noresult_queue s))))]).
Proof.
  intros Hne. unfold execute_noresult_queue, mbind, get.
  destruct (noresult_queue s) as [|st q] eqn:Hq; [done|].
  cbn [OrderedDict.nonempty negb]. rewrite flush_loop_spec.
  unfold modify, emit. by rewrite !app_nil_l.
Qed.

(** X16. A flush of a queue that holds statements submits exactly one
    command, the SQL of all the queued statements in their order joined by
    a semicolon and a line feed, with the callbacks of the statements that
    have one, in the same order; it empties the queue, sets the last-flush
    time, leaves the result queue alone, and a flush straight after it does
    nothing. *)
Theorem flush_submits_everything_once (now : Z) (s : DbQueryQueue) :
  noresult_queue s <> [] ->
  exists s',
    execute_noresult_queue now s
    = (Ret tt, s',
       [DbExecute
          (String.concat (";" +:+ newline)
             (map fst (OrderedDict.values (noresult_queue s))))
          (PerformCallbacks (omap snd (OrderedDict.values (noresult_queue s))))]) /\
    noresult_queue s' = [] /\
    noresult_last_time s' = Some now /\
    queue s' = queue s /\
    forall later, execute_noresult_queue later s' = (Ret tt, s', []).
Proof.
  intros Hne. eexists. split; [by apply execute_noresult_queue_nonempty|].
  repeat split.
Qed.

Lemma flush_submits_everything_once_witness :
  exists s',
    execute_noresult_queue 1500 noresult_abc
    = (Ret tt, s',
       [DbExecute
          (String.concat (";" +:+ newline)
             (map fst (OrderedDict.values (noresult_queue noresult_abc))))
          (PerformCallbacks
             (omap snd (OrderedDict.values (noresult_queue noresult_abc))))]) /\
    noresult_queue s' = [] /\
    noresult_last_time s' = Some 1500 /\
    queue s' = queue noresult_abc /\
    forall later, execute_noresult_queue later s' = (Ret tt, s', []).
Proof.
  apply (flush_submits_everything_once 1500 noresult_abc). discriminate.
Defined.

(** X17. The timeout check. With statements queued, the check does
    nothing as long as no more than [noresult_poll_timeout] has passed
    since the last flush; once more has passed it flushes the whole queue
    as one command and records the time of the flush, and from then on a
    check does nothing, however late it comes, until a statement is
    enqueued again. *)
Theorem timeout_check_policy (now flush_time last : Z) (s : DbQueryQueue) :
  noresult_last_time s = Some last ->
  noresult_queue s <> [] ->
  (now - last <= noresult_poll_timeout s ->
   noresult_timeout_check now flush_time s = (Ret tt, s, [])) /\
  (noresult_poll_timeout s < now - last ->
   exists s',
     noresult_timeout_check now flush_time s
     = (Ret tt, s',
        [DbExecute
           (String.concat (";" +:+ newline)
              (map fst (OrderedDict.values (noresult_queue s))))
           (PerformCallbacks (omap snd (OrderedDict.values (noresult_queue s))))]) /\
     noresult_queue s' = [] /\
     noresult_last_time s' = Some flush_time /\
     forall now' flush_time',
       noresult_timeout_check now' flush_time' s' = (Ret tt, s', [])).
Proof.
  intros Hlast Hne. split.
  - intros Hle. unfold noresult_timeout_check, mbind, get. rewrite Hlast.
    by destruct (Z.gtb_spec (now - last) (noresult_poll_timeout s)); [lia|].
  - intros Hlt. eexists. split.
    { unfold noresult_timeout_check, mbind at 1, get at 1. rewrite Hlast.
      destruct (Z.gtb_spec (now - last) (noresult_poll_timeout s)); [|lia].
      rewrite execute_noresult_queue_nonempty by done.
      by rewrite app_nil_l. }
    split; [reflexivity|]. split; [reflexivity|].
    intros now' flush_time'.
    unfold noresult_timeout_check, mbind, get. simpl.
    by destruct (now' - flush_time >? noresult_poll_timeout s).
Qed.

Lemma timeout_check_policy_witness :
  (1000 - 0 <= noresult_poll_timeout noresult_abc ->
   noresult_timeout_check 1000 1001 noresult_abc = (Ret tt, noresult_abc, [])) /\
  (noresult_poll_timeout noresult_abc < 1000 - 0 ->
   exists s',
     noresult_timeout_check 1000 1001 noresult_abc
     = (Ret tt, s',
        [DbExecute
           (String.concat (";" +:+ newline)
              (map fst (OrderedDict.values (noresult_queue noresult_abc))))
           (PerformCallbacks
              (omap snd (OrderedDict.values (noresult_queue noresult_abc))))]) /\
     noresult_queue s' = [] /\
     noresult_last_time s' = Some 1001 /\
     forall now' flush_time',
       noresult_timeout_check now' flush_time' s' = (Ret tt, s', [])).
Proof.
  apply (timeout_check_policy 1000 1001 0 noresult_abc).
  - reflexivity.
  - discriminate.
Defined.

(** ** Callbacks called without protection *)

Lemma call_some {S} cb_run (cb : cbid) (arg : callback_arg) (s : S) :
  call cb_run (Some cb) arg s = (cb_run cb arg, s, [Call cb arg]).
Proof. reflexivity. Qed.

(** The loop [for callback in callbacks: callback(...)] when every
    callback returns. *)
Lemma plain_calls_all {S} cb_run (arg : callback_arg) (callbacks : list cbid)
    (s : S) :
  Forall (fun cb => cb_run cb arg = Ret tt) callbacks ->
  for_each callbacks (fun cb => call cb_run (Some cb) arg) s
  = (Ret tt, s, map (fun cb => Call cb arg) callbacks).
Proof.
  induction 1 as [|cb callbacks Hcb _ IH]; [done|].
  cbn [for_each]. unfold mbind. by rewrite call_some, Hcb, IH.
Qed.

(** The same loop when a callback raises: the exception leaves the loop. *)
Lemma plain_calls_stop {S} cb_run (arg : callback_arg)
    (before after : list cbid) (cb : cbid) (x : exn) (s : S) :
  Forall (fun cb => cb_run cb arg = Ret tt) before ->
  cb_run cb arg = Raise x ->
  for_each (before ++ cb :: after) (fun cb => call cb_run (Some cb) arg) s
  = (Raise x, s, map (fun cb => Call cb arg) (before ++ [cb])).
Proof.
  intros Hb Hx. induction Hb as [|cb0 before Hcb0 _ IH].
  - cbn [app for_each]. unfold mbind. by rewrite call_some, Hx.
  - cbn [app for_each]. unfold mbind. by rewrite call_some, Hcb0, IH.
Qed.

(** X18. From the flush to the callbacks. After a flush of a queue that
    holds statements, when the database layer calls the continuation of the
    compound command, with a cursor or with an error object alike, and every
    callback returns, the callback of every statement that has one is
    called once, without argument, in the order in which the statements were
    queued; what the command gave is not passed on. *)
Theorem flush_then_callbacks (cb_run : cbid -> callback_arg -> res unit)
    (now : Z) (result : dbresult) (s : DbQueryQueue) :
  noresult_queue s <> [] ->
  Forall (fun cb => cb_run cb NoArgs = Ret tt)
         (omap snd (OrderedDict.values (noresult_queue s))) ->
  exists s' sql callbacks,
    execute_noresult_queue now s
      = (Ret tt, s', [DbExecute sql (PerformCallbacks callbacks)]) /\
    perform_callbacks cb_run result callbacks s'
      = (Ret tt, s',
         map (fun cb => Call cb NoArgs)
             (omap snd (OrderedDict.values (noresult_queue s)))).
Proof.
  intros Hne Hcb. eexists _, _, _.
  split; [by apply execute_noresult_queue_nonempty|].
  unfold perform_callbacks. by apply plain_calls_all.
Qed.

Lemma flush_then_callbacks_witness :
  exists s' sql callbacks,
    execute_noresult_queue 1500 noresult_abc
      = (Ret tt, s', [DbExecute sql (PerformCallbacks callbacks)]) /\
    perform_callbacks cb_example
      (DbError (Exn Psycopg2OperationalError "connection lost")) callbacks s'
      = (Ret tt, s',
         map (fun cb => Call cb NoArgs)
             (omap snd (OrderedDict.values (noresult_queue noresult_abc)))).
Proof.
  apply (flush_then_callbacks cb_example 1500
           (DbError (Exn Psycopg2OperationalError "connection lost"))
           noresult_abc).
  - discriminate.
  - repeat constructor.
Defined.

(** X19. [perform_callbacks] has no protection. When one of the
    callbacks raises, be it an instance of [Exception], the exception leaves
    [perform_callbacks]: the callbacks before it have been called, and the
    callbacks after it are never called. *)
Theorem perform_callbacks_stops_at_failure
    (cb_run : cbid -> callback_arg -> res unit) (result : dbresult)
    (before after : list cbid) (cb : cbid) (x : exn) (s : DbQueryQueue) :
  Forall (fun cb => cb_run cb NoArgs = Ret tt) before ->
  cb_run cb NoArgs = Raise x ->
  perform_callbacks cb_run result (before ++ cb :: after) s
  = (Raise x, s, map (fun cb => Call cb NoArgs) (before ++ [cb])).
Proof. intros Hb Hx. unfold perform_callbacks. by apply plain_calls_stop. Qed.

Lemma perform_callbacks_stops_at_failure_witness :
  perform_callbacks cb_example (answer "A") ([1%nat] ++ 13%nat :: [3%nat]) new_queue
  = (Raise (Exn OtherException "boom"), new_queue,
     map (fun cb => Call cb NoArgs) ([1%nat] ++ [13%nat])).
Proof.
  apply (perform_callbacks_stops_at_failure cb_example (answer "A")
           [1%nat] [3%nat] 13%nat (Exn OtherException "boom") new_queue).
  - repeat constructor.
  - reflexivity.
Defined.

(** ** The readiness poller, the other branches *)

Lemma mbind_get {S B} (f : S -> M S B) (s : S) : mbind get f s = f s s.
Proof. unfold mbind, get. by destruct (f s s) as [[r s2] t2]. Qed.

Lemma mbind_mret {S A B} (a : A) (f : A -> M S B) (s : S) :
  mbind (mret a) f s = f a s.
Proof. unfold mbind, mret. by destruct (f a s) as [[r s2] t2]. Qed.

Lemma mbind_emit {S B} (ev : event) (f : unit -> M S B) (s : S) :
  mbind (emit ev) f s = ((f tt s).1.1, (f tt s).1.2, ev :: (f tt s).2).
Proof. unfold mbind, emit. by destruct (f tt s) as [[r s2] t2]. Qed.

Lemma registrations_app evs evs' :
  registrations (evs ++ evs') = registrations evs ++ registrations evs'.
Proof. unfold registrations. apply omap_app. Qed.

Lemma guarded_loop_registers_nothing {S} cb_run (arg : callback_arg)
    (tag : string) (callbacks : list cbid) (s : S) :
  registrations
    (for_each callbacks (fun callback =>
       try_except (call cb_run (Some callback) arg)
                  (fun e => emit (Print tag (exn_message e)))) s).2 = [].
Proof.
  revert s. induction callbacks as [|cb callbacks IH]; intros s; [done|].
  cbn [for_each]. unfold mbind. unfold try_except at 1. rewrite call_some.
  destruct (cb_run cb arg) as [[]|x].
  - specialize (IH s). destruct (for_each callbacks _ s) as [[r1 s1] e1].
    simpl in *. by rewrite IH.
  - destruct (isinstance_Exception x); [|done]. unfold emit at 1.
    specialize (IH s). destruct (for_each callbacks _ s) as [[r1 s1] e1].
    simpl in *. by rewrite IH.
Qed.

Lemma plain_loop_registers_nothing {S} cb_run (arg : callback_arg)
    (callbacks : list cbid) (s : S) :
  registrations
    (for_each callbacks (fun cb => call cb_run (Some cb) arg) s).2 = [].
Proof.
  revert s. induction callbacks as [|cb callbacks IH]; intros s; [done|].
  cbn [for_each]. unfold mbind. rewrite call_some.
  destruct (cb_run cb arg) as [[]|x]; [|done].
  specialize (IH s). destruct (for_each callbacks _ s) as [[r1 s1] e1].
  simpl in *. by rewrite IH.
Qed.

(** X20. No callback before the end. Whatever [poll()] does and whatever
    the callbacks do, [_update_handler] calls a callback only when [poll()]
    returned [POLL_OK] or raised a [psycopg2.Warning] or [psycopg2.Error];
    it registers the descriptor only when [poll()] returned [POLL_READ] or
    [POLL_WRITE], and then it registers it once, for reading or for writing,
    and does nothing else. *)
Theorem callbacks_only_on_completion
    (cb_run : cbid -> callback_arg -> res unit)
    (fileno : res Z) (update_handler : Z -> Z -> res unit)
    (poll : res Z) (s : Poller.t) :
  let r := (Poller._update_handler cb_run fileno update_handler poll s).1.1 in
  let evs := (Poller._update_handler cb_run fileno update_handler poll s).2 in
  (calls evs <> [] ->
   poll = Ret Poller.POLL_OK \/
   exists e, poll = Raise e /\ isinstance_psycopg2 e = true) /\
  (registrations evs <> [] ->
   poll = Ret Poller.POLL_READ \/ poll = Ret Poller.POLL_WRITE) /\
  (poll = Ret Poller.POLL_READ ->
   r = Ret tt /\ evs = [AddHandler (Poller._fileno s) IoCallback Poller.READ]) /\
  (poll = Ret Poller.POLL_WRITE ->
   r = Ret tt /\ evs = [AddHandler (Poller._fileno s) IoCallback Poller.WRITE]).
Proof.
  intros r evs. subst r evs.
  unfold Poller._update_handler. rewrite mbind_get.
  destruct poll as [state|e].
  - destruct (Z.eqb_spec state Poller.POLL_OK) as [->|Hok].
    + split; [by left|]. split; [|by split].
      intros Hreg. exfalso. apply Hreg. apply plain_loop_registers_nothing.
    + destruct (Z.eqb_spec state Poller.POLL_READ) as [->|Hrd];
        [|destruct (Z.eqb_spec state Poller.POLL_WRITE) as [->|Hwr]].
      * split; [done|]. split; [by left|]. by split.
      * split; [done|]. split; [by right|]. by split.
      * split; [done|]. split; [done|]. split; intros [= ->]; done.
  - destruct (isinstance_psycopg2 e) eqn:He.
    + split; [intros _; right; by exists e|]. split; [|by split].
      intros Hreg. exfalso. apply Hreg. clear Hreg.
      pose proof (guarded_loop_registers_nothing cb_run (ArgError e)
                    "DBQUERY-POLLER:CALLBACK_ERROR:" (Poller._callbacks s) s) as H.
      destruct (isinstance_DatabaseError e); cbn [negb].
      * rewrite mbind_mret. by destruct (bool_decide _).
      * unfold mbind, lift, emit. destruct fileno as [fd|x]; [|done].
        destruct (update_handler fd 0) as [[]|x]; [|done].
        destruct (bool_decide _); cbn [negb]; [done|].
        destruct (for_each _ _ s) as [[r1 s1] e1]. simpl in *. done.
    + split; [done|]. by split.
Qed.

Lemma poll_write_registers_example :
  (Poller._update_handler cb_example fileno_open update_handler_accepts
     (Ret Poller.POLL_WRITE) poller_example).2
  = [AddHandler 7 IoCallback Poller.WRITE].
Proof. reflexivity. Qed.

Lemma update_handler_ok cb_run fileno update_handler (s : Poller.t) :
  Poller._update_handler cb_run fileno update_handler (Ret Poller.POLL_OK) s
  = for_each (Poller._callbacks s) (fun cb => call cb_run (Some cb) NoArgs) s.
Proof. unfold Poller._update_handler. by rewrite mbind_get. Qed.

(** X21. The callbacks of a successful poll are not protected. When
    [poll()] returns [POLL_OK] and one of the callbacks raises, be it an
    instance of [Exception], the exception leaves [_update_handler] and the
    callbacks registered after it are never called, unlike what happens
    when [poll()] raises. *)
Theorem poll_ok_stops_at_failure (cb_run : cbid -> callback_arg -> res unit)
    (fileno : res Z) (update_handler : Z -> Z -> res unit)
    (before after : list cbid) (cb : cbid) (x : exn) (s : Poller.t) :
  Poller._callbacks s = before ++ cb :: after ->
  Forall (fun cb => cb_run cb NoArgs = Ret tt) before ->
  cb_run cb NoArgs = Raise x ->
  Poller._update_handler cb_run fileno update_handler (Ret Poller.POLL_OK) s
  = (Raise x, s, map (fun cb => Call cb NoArgs) (before ++ [cb])).
Proof.
  intros Hcbs Hb Hx. rewrite update_handler_ok, Hcbs.
  by apply plain_calls_stop.
Qed.

Lemma poll_ok_stops_at_failure_witness :
  Poller._update_handler cb_example fileno_open update_handler_accepts
    (Ret Poller.POLL_OK) poller_example
  = (Raise (Exn OtherException "boom"), poller_example,
     map (fun cb => Call cb NoArgs) ([1%nat] ++ [13%nat])).
Proof.
  apply (poll_ok_stops_at_failure cb_example fileno_open
           update_handler_accepts [1%nat] [3%nat] 13%nat
           (Exn OtherException "boom") poller_example).
  - reflexivity.
  - repeat constructor.
  - reflexivity.
Defined.

(** What a poller does outside while the connection makes it wait [states]
    and then reports [POLL_OK]: each wait registers the descriptor, each
    readiness removes it, and the callbacks come last. *)
Lemma drive_from_spec cb_run fileno update_handler (states : list Z)
    (rest : list (res Z)) (first : bool) (s : Poller.t) :
  Forall (fun st => st = Poller.POLL_READ \/ st = Poller.POLL_WRITE) states ->
  Forall (fun cb => cb_run cb NoArgs = Ret tt) (Poller._callbacks s) ->
  Poller.drive_from cb_run fileno update_handler first
    (map Ret states ++ Ret Poller.POLL_OK :: rest) s
  = (Ret tt, s,
     (if first then [] else [RemoveHandler (Poller._fileno s)])
     ++ concat (map (fun st =>
                  [AddHandler (Poller._fileno s) IoCallback
                     (if st =? Poller.POLL_READ then Poller.READ else Poller.WRITE);
                   RemoveHandler (Poller._fileno s)]) states)
     ++ map (fun cb => Call cb NoArgs) (Poller._callbacks s)).
Proof.
  intros Hst Hcb. revert first.
  induction Hst as [|st states Hs _ IH]; intros first.
  - cbn [map app Poller.drive_from Poller.waits concat].
    change ((Poller.POLL_OK =? Poller.POLL_READ)
            || (Poller.POLL_OK =? Poller.POLL_WRITE)) with false.
    cbn iota. unfold mbind at 1.
    destruct first.
    + rewrite update_handler_ok, plain_calls_all by done.
      unfold mret. by rewrite app_nil_r.
    + unfold Poller._io_callback. rewrite mbind_get, mbind_emit.
      rewrite update_handler_ok, plain_calls_all by done.
      unfold mret. simpl. by rewrite app_nil_r.
  - cbn [map app Poller.drive_from concat].
    assert (Poller.waits (Ret st) = true) as ->.
    { by destruct Hs as [-> | ->]. }
    assert (Poller._update_handler cb_run fileno update_handler (Ret st) s
            = (Ret tt, s,
               [AddHandler (Poller._fileno s) IoCallback
                  (if st =? Poller.POLL_READ then Poller.READ else Poller.WRITE)]))
      as Hup.
    { unfold Poller._update_handler. rewrite mbind_get.
      by destruct Hs as [-> | ->]. }
    unfold mbind at 1. destruct first.
    + rewrite Hup, (IH false). simpl. done.
    + unfold Poller._io_callback. rewrite mbind_get, mbind_emit, Hup.
      cbn [fst snd]. rewrite (IH false). simpl. done.
Qed.

(** X22. A poller from its creation to its end. When the connection
    makes the poller wait any number of times, for reading or for writing,
    and then reports [POLL_OK], and every callback returns: each wait
    registers the descriptor for the direction asked, the descriptor is
    removed before the next poll, every callback is called once, without
    argument, in order, after the last removal, and whatever the connection
    would report afterwards is never asked for. *)
Theorem poller_runs_to_completion (cb_run : cbid -> callback_arg -> res unit)
    (fileno : res Z) (update_handler : Z -> Z -> res unit)
    (states : list Z) (rest : list (res Z)) (s : Poller.t) :
  Forall (fun st => st = Poller.POLL_READ \/ st = Poller.POLL_WRITE) states ->
  Forall (fun cb => cb_run cb NoArgs = Ret tt) (Poller._callbacks s) ->
  Poller.drive cb_run fileno update_handler
    (map Ret states ++ Ret Poller.POLL_OK :: rest) s
  = (Ret tt, s,
     concat (map (fun st =>
               [AddHandler (Poller._fileno s) IoCallback
                  (if st =? Poller.POLL_READ then Poller.READ else Poller.WRITE);
                RemoveHandler (Poller._fileno s)]) states)
     ++ map (fun cb => Call cb NoArgs) (Poller._callbacks s)).
Proof.
  intros Hst Hcb. unfold Poller.drive.
  by rewrite (drive_from_spec cb_run fileno update_handler states rest true s
                Hst Hcb).
Qed.

Lemma poller_runs_to_completion_witness :
  let s := Poller.Build 7 [1%nat; 2%nat] in
  Poller.drive cb_example fileno_open update_handler_accepts
    (map Ret [Poller.POLL_WRITE; Poller.POLL_READ]
     ++ Ret Poller.POLL_OK :: [Ret Poller.POLL_READ]) s
  = (Ret tt, s,
     concat (map (fun st =>
               [AddHandler (Poller._fileno s) IoCallback
                  (if st =? Poller.POLL_READ then Poller.READ else Poller.WRITE);
                RemoveHandler (Poller._fileno s)])
               [Poller.POLL_WRITE; Poller.POLL_READ])
     ++ map (fun cb => Call cb NoArgs) (Poller._callbacks s)).
Proof.
  apply (poller_runs_to_completion cb_example fileno_open
           update_handler_accepts
           [Poller.POLL_WRITE; Poller.POLL_READ] [Ret Poller.POLL_READ]
           (Poller.Build 7 [1%nat; 2%nat])).
  - apply Forall_cons_2; [by right|].
    apply Forall_cons_2; [by left|]. apply Forall_nil_2.
  - repeat constructor.
Defined.

(** ** [QueryChain] *)

Lemma for_each_app {S X} (l1 l2 : list X) (body : X -> M S unit) (s : S) :
  for_each (l1 ++ l2) body s
  = mbind (for_each l1 body) (fun _ => for_each l2 body) s.
Proof.
  revert s. induction l1 as [|x l1 IH]; intros s.
  - simpl. unfold mbind, mret. by destruct (for_each l2 body s) as [[? ?] ?].
  - simpl. unfold mbind in *. destruct (body x s) as [[[[]|e] s1] t1]; [|done].
    rewrite IH. destruct (for_each l1 body s1) as [[[[]|e] s2] t2]; [|done].
    destruct (for_each l2 body s2) as [[r3 s3] t3]. by rewrite app_assoc.
Qed.

Lemma submitted_chain (l : list query) :
  submitted (map QueryChain.submit l) = map query_sql l.
Proof. induction l as [|[sql|sql ps] l IH]; [done| |]; simpl; by f_equal. Qed.

Lemma calls_chain (l : list query) : calls (map QueryChain.submit l) = [].
Proof. by induction l as [|[sql|sql ps] l IH]. Qed.

(** The cursors that arrive while queries are still waiting to be
    submitted: each one is recorded and lets the next query go. *)
Lemma chain_progress cb_run (callback : option cbid) (cursors acc : list dbresult)
    (remaining : list query) :
  (length cursors <= length remaining)%nat ->
  for_each cursors (fun c => QueryChain._collect cb_run (Some c))
           (QueryChain.Build callback acc remaining)
  = (Ret tt,
     QueryChain.Build callback (acc ++ cursors) (drop (length cursors) remaining),
     map QueryChain.submit (take (length cursors) remaining)).
Proof.
  revert acc remaining. induction cursors as [|c cursors IH];
    intros acc remaining Hlen.
  - simpl. unfold mret. by rewrite app_nil_r.
  - destruct remaining as [|q remaining]; [simpl in Hlen; lia|].
    cbn [for_each length take drop map]. unfold mbind at 1.
    unfold QueryChain._collect at 1. unfold mbind, modify, get, emit.
    cbn [QueryChain._queries QueryChain._callback QueryChain._cursors app].
    rewrite IH by (simpl in Hlen; lia).
    by rewrite <- app_assoc.
Qed.

Lemma chain_first cb_run (callback : option cbid) (q : query) (qs : list query) :
  QueryChain._collect cb_run None (QueryChain.Build callback [] (q :: qs))
  = (Ret tt, QueryChain.Build callback [] qs, [QueryChain.submit q]).
Proof. reflexivity. Qed.

Lemma chain_last cb_run (callback : cbid) (c : dbresult) (acc : list dbresult) :
  QueryChain._collect cb_run (Some c) (QueryChain.Build (Some callback) acc [])
  = (match cb_run callback (ArgCursorList (acc ++ [c])) with
     | Ret _ => Ret tt
     | Raise x => Raise x
     end,
     QueryChain.Build (Some callback) (acc ++ [c]) [],
     [Call callback (ArgCursorList (acc ++ [c]))]).
Proof.
  unfold QueryChain._collect, mbind, modify, get, call. simpl.
  by destruct (cb_run callback _) as [[]|x].
Qed.

(** The events of a chain whose cursors have not all arrived, and of a
    chain whose last cursor has arrived. *)
Lemma chain_events cb_run (queries : list query) (callback : cbid)
    (cursors : list dbresult) :
  (length cursors <= length queries)%nat ->
  (QueryChain.run cb_run queries (Some callback) cursors).2
  = map QueryChain.submit (take (S (length cursors)) queries)
    ++ (if decide (length cursors = length queries)
        then [Call callback (ArgCursorList cursors)] else []).
Proof.
  intros Hlen. unfold QueryChain.run.
  destruct queries as [|q queries].
  - destruct cursors; [|simpl in Hlen; lia].
    unfold mbind, QueryChain._collect, mbind, mret, get, call. simpl.
    by destruct (cb_run callback (ArgCursorList [])) as [[]|x].
  - unfold mbind at 1. rewrite chain_first.
    destruct (decide (length cursors = length (q :: queries))) as [Heq|Hne].
    + destruct cursors as [|c cursors _] using rev_ind; [done|].
      rewrite length_app in Heq. simpl in Heq.
      rewrite for_each_app. unfold mbind at 1.
      rewrite chain_progress by lia.
      replace (length cursors) with (length queries) by lia.
      rewrite drop_all, firstn_all.
      cbn [for_each]. unfold mbind at 1. rewrite chain_last.
      rewrite length_app. cbn [length].
      rewrite (firstn_all2 (q :: queries)) by (simpl; lia).
      cbn [app]. unfold mret.
      destruct (cb_run callback _) as [[]|x]; simpl; by rewrite ?app_nil_r.
    + simpl in Hlen, Hne. rewrite chain_progress by lia.
      simpl. by rewrite app_nil_r.
Qed.

(** X23. A chain runs its queries one at a time, in order. After
    [QueryChain(db, queries, callback)] and the arrival of the cursors of
    the first queries, the queries submitted so far are, in order, the
    first ones of the chain, one more than the cursors arrived; the
    continuation is called only when as many cursors have arrived as there
    are queries, once, with the list of all the cursors in the order of the
    queries. *)
Theorem chain_runs_in_order (cb_run : cbid -> callback_arg -> res unit)
    (queries : list query) (callback : cbid) (cursors : list dbresult) :
  (length cursors <= length queries)%nat ->
  let evs := (QueryChain.run cb_run queries (Some callback) cursors).2 in
  submitted evs = map query_sql (take (S (length cursors)) queries) /\
  calls evs = if decide (length cursors = length queries)
              then [(callback, ArgCursorList cursors)] else [].
Proof.
  intros Hlen evs. subst evs. rewrite chain_events by done.
  rewrite submitted_app, calls_app, submitted_chain, calls_chain.
  destruct (decide (length cursors = length queries)); simpl;
    by rewrite ?app_nil_r.
Qed.

Lemma chain_runs_in_order_witness :
  let queries := [QueryStr "SELECT 1"; QueryList "SELECT %s" [PyInt 2];
                  QueryStr "SELECT 3"] in
  let cursors := [answer "1"; answer "2"; answer "3"] in
  let evs := (QueryChain.run cb_example queries (Some 5%nat) cursors).2 in
  submitted evs = map query_sql (take (S (length cursors)) queries) /\
  calls evs = if decide (length cursors = length queries)
              then [(5%nat, ArgCursorList cursors)] else [].
Proof.
  apply (chain_runs_in_order cb_example
           [QueryStr "SELECT 1"; QueryList "SELECT %s" [PyInt 2];
            QueryStr "SELECT 3"] 5%nat [answer "1"; answer "2"; answer "3"]).
  simpl. lia.
Defined.

(** ** [BatchQuery] *)

Lemma collectors_submit (l : list (string * (string * list pyvalue))) :
  collectors (BatchQuery.submit <$> l) = l.*1.
Proof. induction l as [|[k [sql ps]] l IH]; [done|]. simpl. by f_equal. Qed.

(** X24. A batch submits one query per key, at once. The constructor
    submits exactly as many queries as the dictionary has keys, one for
    every key, each with the SQL and the parameters given under that key (no
    parameters for a query given as a string) and with the collector of
    that key, and sets the countdown to the number of keys. *)
Theorem batch_submits_one_query_per_key (queries : gmap string query)
    (callback : option cbid) :
  let b := (BatchQuery.init queries callback).1 in
  let evs := (BatchQuery.init queries callback).2 in
  BatchQuery._size b = Z.of_nat (size queries) /\
  length evs = size queries /\
  collectors evs ≡ₚ (map_to_list queries).*1 /\
  NoDup (collectors evs) /\
  forall k q, queries !! k = Some q ->
    DbExecuteWith (BatchQuery.as_list q).1 (BatchQuery.as_list q).2
                  (BatchCollect k) ∈ evs.
Proof.
  intros b evs. subst b evs. unfold BatchQuery.init. cbn [fst snd].
  split; [done|].
  split; [by rewrite length_fmap, length_map_to_list, map_size_fmap|].
  rewrite collectors_submit.
  split; [|split].
  - rewrite map_to_list_fmap.
    assert (forall l : list (string * query),
              (prod_map id BatchQuery.as_list <$> l).*1 = l.*1) as ->; [|done].
    induction l as [|[k q] l IH]; [done|]. simpl. by f_equal.
  - apply NoDup_fst_map_to_list.
  - intros k q Hq.
    apply (list_elem_of_fmap_2 BatchQuery.submit _ (k, BatchQuery.as_list q)).
    apply elem_of_map_to_list. by rewrite lookup_fmap, Hq.
Qed.

Lemma batch_completes_once_witness :
  let done := [("b", answer "b"); ("a", answer "a")] in
  let b := (BatchQuery.init batch_ab (Some 5%nat)).1 in
  let args : gmap string dbresult := list_to_map done in
  dom args = dom batch_ab /\
  (BatchQuery.completions cb_example done b).2 = [Call 5%nat (ArgCursors args)] /\
  forall pre post, done = pre ++ post -> post <> [] ->
    (BatchQuery.completions cb_example pre b).2 = [].
Proof.
  apply (batch_completes_once cb_example 5%nat batch_ab
           [("b", answer "b"); ("a", answer "a")]).
  - intros H. assert (batch_ab !! "a" = None) as Ha by (by rewrite H).
    vm_compute in Ha. discriminate.
  - apply (bool_decide_unpack _). vm_compute. reflexivity.
Defined.

(** Completions that cannot bring the countdown to 0 with a continuation
    to call: there is no continuation, or the countdown is already at 0 or
    below. *)
Lemma completions_silent cb_run (done : list (string * dbresult))
    (s : BatchQuery.t) :
  BatchQuery._callback s = None \/ BatchQuery._size s <= 0 ->
  (BatchQuery.completions cb_run done s).2 = [].
Proof.
  revert s. induction done as [|[k c] done IH]; intros s Hs; [done|].
  unfold BatchQuery.completions in *. cbn [for_each fst snd].
  unfold mbind at 1. unfold BatchQuery._collect.
  unfold mbind, modify, get, mret.
  cbn [fst snd BatchQuery._size BatchQuery._args BatchQuery._callback
       BatchQuery._queries].
  set (s1 := BatchQuery.Build _ _ _ _).
  assert (BatchQuery._callback s1 = None \/ BatchQuery._size s1 <= 0) as Hs1.
  { destruct Hs as [Hs|Hs]; [by left|right]. simpl. lia. }
  specialize (IH s1 Hs1).
  destruct (Z.eqb_spec (BatchQuery._size s - 1) 0) as [Heq|Hne]; cbn [negb].
  - destruct Hs as [Hs|Hs]; [|lia]. rewrite Hs.
    fold s1. destruct (for_each done _ s1) as [[r2 s2] t2]. by simpl in *.
  - fold s1. destruct (for_each done _ s1) as [[r2 s2] t2]. by simpl in *.
Qed.

(** The countdown after some completions: it has gone down by their
    number, unless the continuation raised, which it can do only at 0. *)
Lemma completions_size cb_run (done : list (string * dbresult))
    (s : BatchQuery.t) :
  BatchQuery._size (BatchQuery.completions cb_run done s).1.2
  <= Z.max 0 (BatchQuery._size s - Z.of_nat (length done)).
Proof.
  revert s. induction done as [|[k c] done IH]; intros s; [simpl; lia|].
  unfold BatchQuery.completions in *. cbn [for_each fst snd].
  unfold mbind at 1. unfold BatchQuery._collect.
  unfold mbind, modify, get, mret, call.
  cbn [fst snd BatchQuery._size BatchQuery._args BatchQuery._callback
       BatchQuery._queries].
  set (s1 := BatchQuery.Build _ _ _ _).
  specialize (IH s1).
  assert (BatchQuery._size s1 = BatchQuery._size s - 1) as Hs1 by done.
  cbn [length].
  destruct (Z.eqb_spec (BatchQuery._size s - 1) 0) as [Heq|Hne]; cbn [negb].
  - destruct (BatchQuery._callback s) as [cb|].
    + destruct (cb_run cb _) as [[]|x]; [|simpl; lia].
      fold s1. destruct (for_each done _ s1) as [[r2 s2] t2]. simpl in *. lia.
    + fold s1. destruct (for_each done _ s1) as [[r2 s2] t2]. simpl in *. lia.
  - fold s1. destruct (for_each done _ s1) as [[r2 s2] t2]. simpl in *. lia.
Qed.

(** X26. The continuation of a batch is called at most once. Whatever
    completions the collectors of a batch receive, in whatever number and
    order, the same key twice or a key that was never given, the
    continuation is called at most once, and once it has been called no
    later completion calls anything; without a continuation, or with an
    empty dictionary, nothing is ever called. *)
Theorem batch_calls_at_most_once (cb_run : cbid -> callback_arg -> res unit)
    (queries : gmap string query) (callback : option cbid)
    (done : list (string * dbresult)) :
  let b := (BatchQuery.init queries callback).1 in
  let evs := (BatchQuery.completions cb_run done b).2 in
  let after := (BatchQuery.completions cb_run done b).1.2 in
  (length (calls evs) <= 1)%nat /\
  (calls evs <> [] ->
   forall later, (BatchQuery.completions cb_run later after).2 = []) /\
  (callback = None \/ queries = ∅ -> evs = []).
Proof.
  intros b evs after. subst evs after b. unfold BatchQuery.init. cbn [fst].
  set (b := BatchQuery.Build _ _ _ _).
  assert (callback = None \/ queries = ∅ ->
          (BatchQuery.completions cb_run done b).2 = []) as Hsilent.
  { intros H. apply completions_silent. subst b. simpl.
    destruct H as [->| ->]; [by left|right]. by rewrite map_size_empty. }
  assert (callback = None \/ queries = ∅ \/ (length done < size queries)%nat ->
          (BatchQuery.completions cb_run done b).2 = []) as Hnone.
  { intros [H|[H|H]]; [apply Hsilent; by left|apply Hsilent; by right|].
    rewrite completions_pending; [done|]. subst b. simpl. lia. }
  split; [|split; [|done]].
  - destruct callback as [cb|]; [|rewrite Hnone by (by left); simpl; lia].
    destruct (decide (size queries = 0%nat)) as [Hz|Hnz].
    { apply map_size_empty_iff in Hz.
      rewrite Hnone by (right; by left). simpl. lia. }
    destruct (decide (length done < size queries)%nat) as [Hlt|Hge].
    { rewrite Hnone by (right; by right). simpl. lia. }
    rewrite <- (take_drop (size queries) done).
    unfold BatchQuery.completions. rewrite for_each_app. unfold mbind at 1.
    pose proof (completions_spec cb_run cb (take (size queries) done) b) as Hspec.
    unfold BatchQuery.completions in Hspec. rewrite Hspec; clear Hspec.
    + destruct (cb_run cb _) as [[]|x]; [|simpl; lia].
      set (s1 := BatchQuery.Build _ _ _ 0).
      pose proof (completions_silent cb_run (drop (size queries) done) s1
                    ltac:(right; simpl; lia)) as Hrest.
      unfold BatchQuery.completions in Hrest.
      destruct (for_each (drop _ _) _ s1) as [[r2 s2] t2]. simpl in *.
      subst t2. simpl. lia.
    + done.
    + subst b. simpl. rewrite length_take. lia.
    + intros Hnil. apply (f_equal length) in Hnil.
      rewrite length_take in Hnil. simpl in Hnil. lia.
  - intros Hcalls later. apply completions_silent. right.
    destruct (decide (length done < size queries)%nat) as [Hlt|Hge].
    { exfalso. apply Hcalls. by rewrite Hnone by (right; by right). }
    pose proof (completions_size cb_run done b) as Hsz.
    assert (BatchQuery._size b = Z.of_nat (size queries)) as Hb by done.
    lia.
Qed.

(** ** From the enqueue to the continuation *)

(** X27. The kind of fetch is remembered. A query enqueued with
    [fetchone] or [fetchall] on an empty queue, under a positive
    [queue_length], is submitted by the next run of [poller] with its
    formatted SQL, and when [gen.WaitAll] gives its cursor the continuation
    is called once with what the method of that name gives on that
    cursor. *)
Theorem fetch_kind_is_applied
    (cb_run : cbid -> callback_arg -> res unit)
    (adapt_getquoted : pyvalue -> res string)
    (str_mod : string -> fmt_args -> res string)
    (sql_tmpl : string) (p : params) (name : string) (kind : command)
    (sql : string) (callback : cbid) (timeout : Z) (key : string)
    (enqueued now later : Z) (cur : cursor) (data : fetched)
    (s : DbQueryQueue) :
  queue s = [] ->
  0 < queue_length s ->
  parse_command name = Some kind ->
  format_sql adapt_getquoted str_mod sql_tmpl p = Ret sql ->
  getattr_call (Cursor cur) kind = Ret data ->
  (forall x, cb_run callback (ArgData data) = Raise x ->
             isinstance_Exception x = true) ->
  exists s1 s2 evs,
    execute adapt_getquoted str_mod sql_tmpl p name (Some callback) timeout key
      enqueued s = (Ret tt, s1, []) /\
    poller cb_run (fun _ => [Cursor cur]) now later s1 = (Ret tt, s2, evs) /\
    submitted evs = [sql] /\
    calls evs = [(callback, ArgData data)] /\
    queue s2 = [] /\ temp_queries s2 = [].
Proof.
  intros Hq Hql Hkind Hsql Hdata Hcb.
  eexists _, _, _. split.
  { apply execute_appends; try done. rewrite Hq. apply not_elem_of_nil. }
  rewrite Hq. cbn [app].
  set (item := Entry sql (Some callback) key kind (enqueued + timeout)).
  set (s1 := set_queue [(key, item)] s).
  assert (take (Z.to_nat (queue_length s1)) (queue s1) = [(key, item)]) as Htake.
  { subst s1. simpl. destruct (Z.to_nat (queue_length s)) eqn:Hn; [lia|].
    simpl. by destruct n. }
  assert (drop (Z.to_nat (queue_length s1)) (queue s1) = []) as Hdrop.
  { subst s1. simpl. destruct (Z.to_nat (queue_length s)) eqn:Hn; [lia|].
    simpl. by destruct n. }
  pose proof (poller_spec cb_run (fun _ => [Cursor cur]) now later s1) as Hp.
  cbn zeta in Hp. rewrite Htake, Hdrop in Hp.
  rewrite Hp; clear Hp.
  - split; [reflexivity|]. cbn [OrderedDict.nonempty map zip zip_with concat].
    unfold delivery_events, delivery, delivery_failure.
    cbn [fst snd e_command e_callback item]. subst item. cbn [e_command e_callback].
    rewrite Hdata.
    destruct (cb_run callback (ArgData data)) as [[]|x]; by repeat split.
  - subst s1. split; [apply NoDup_singleton|by repeat constructor].
  - done.
  - repeat constructor. intros x. unfold delivery_failure. subst item.
    cbn [fst snd e_command e_callback].
    rewrite Hdata. destruct (cb_run callback (ArgData data)) as [[]|y] eqn:Hy;
      [done|]. intros [= <-]. by apply Hcb.
Qed.

Lemma fetch_kind_is_applied_witness :
  exists s1 s2 evs,
    execute adapt_example py_mod "SELECT %s" (ParamsTuple [PyInt 1]) "fetchone"
      (Some 1%nat) 300000 "A" 0 new_queue = (Ret tt, s1, []) /\
    poller cb_example
      (fun _ => [Cursor (Cursor_ 0 (Ret (FetchedOne (Some [PyInt 1])))
                                   (Ret (FetchedAll [[PyInt 1]])))])
      500 600 s1 = (Ret tt, s2, evs) /\
    submitted evs = ["SELECT 1"] /\
    calls evs = [(1%nat, ArgData (FetchedOne (Some [PyInt 1])))] /\
    queue s2 = [] /\ temp_queries s2 = [].
Proof.
  apply (fetch_kind_is_applied cb_example adapt_example py_mod "SELECT %s"
           (ParamsTuple [PyInt 1]) "fetchone" Fetchone "SELECT 1" 1%nat 300000
           "A" 0 500 600
           (Cursor_ 0 (Ret (FetchedOne (Some [PyInt 1])))
                      (Ret (FetchedAll [[PyInt 1]])))
           (FetchedOne (Some [PyInt 1])) new_queue);
    try reflexivity.
  intros x. vm_compute. discriminate.
Defined.

(** X28. An error object is not delivered. When the database layer hands
    the callback of a query an error object in the place of a cursor, the
    delivery takes the entry out of the in-flight dictionary, prints one
    message and returns: the continuation of the entry is not called, with
    the error or with anything else. *)
Theorem error_result_is_not_delivered
    (cb_run : cbid -> callback_arg -> res unit) (uid : string) (e : exn)
    (item : entry) (rest : OrderedDict.t entry) (s : DbQueryQueue) :
  OrderedDict.pop (temp_queries s) uid = Some (item, rest) ->
  exists message,
    deliver_entry cb_run (uid, DbError e) s
    = (Ret tt, set_temp_queries rest s, [Print "DBQUERY-QUEUE:ERROR:" message]).
Proof.
  intros Hpop. eexists.
  unfold deliver_entry, mbind at 1, get at 1. rewrite Hpop.
  reflexivity.
Qed.

Lemma error_result_is_not_delivered_witness :
  exists message,
    deliver_entry cb_example
      ("B", DbError (Exn Psycopg2OperationalError "connection lost")) inflight_abc
    = (Ret tt,
       set_temp_queries
         [("A", Entry "SELECT 1" (Some 13%nat) "A" Fetchall 300000);
          ("C", Entry "SELECT 3" (Some 3%nat) "C" Fetchone 300000)]
         inflight_abc,
       [Print "DBQUERY-QUEUE:ERROR:" message]).
Proof.
  apply (error_result_is_not_delivered cb_example "B"
           (Exn Psycopg2OperationalError "connection lost")
           (Entry "SELECT 2" (Some 2%nat) "B" Fetchall 300000)
           [("A", Entry "SELECT 1" (Some 13%nat) "A" Fetchall 300000);
            ("C", Entry "SELECT 3" (Some 3%nat) "C" Fetchone 300000)]
           inflight_abc).
  reflexivity.
Defined.

(** ** Starting the queue *)

(** X30. [start] arms the timeout check. On an object that was never
    started the last-flush time is [None] and the timeout check raises a
    [TypeError]; [start] sets the last-flush time to its first reading of
    the clock, starts the timeout check and the expiry sweep as periodic
    callbacks, schedules the first [poller] [poll_timeout] after its second
    reading, and leaves the queues alone; after it the timeout check never
    raises, whenever it comes. *)
Theorem start_arms_timeout_check (now later check flush_time : Z)
    (s : DbQueryQueue) :
  let s' := (start now later s).1.2 in
  (noresult_last_time s = None ->
   exists e, noresult_timeout_check check flush_time s = (Raise e, s, []) /\
             exn_class e = TypeError) /\
  start now later s
  = (Ret tt, s',
     [PeriodicStart TimeoutCheckMethod (noresult_poll_timeout s * 1000);
      PeriodicStart PurgeMethod 30000;
      AddTimeout (later + poll_timeout s) PollerMethod]) /\
  noresult_last_time s' = Some now /\
  queue s' = queue s /\
  temp_queries s' = temp_queries s /\
  noresult_queue s' = noresult_queue s /\
  (noresult_timeout_check check flush_time s').1.1 = Ret tt.
Proof.
  intros s'. subst s'. split; [|repeat split].
  - intros Hnone. exists (Exn TypeError "unsupported operand type(s) for -").
    split; [|reflexivity].
    unfold noresult_timeout_check. rewrite mbind_get. by rewrite Hnone.
  - unfold noresult_timeout_check. rewrite mbind_get.
    cbn [start mbind modify get emit fst snd noresult_last_time
         set_noresult_last_time noresult_poll_timeout].
    destruct (check - now >? noresult_poll_timeout s); [|done].
    destruct (noresult_queue s) as [|st q] eqn:Hq.
    + unfold execute_noresult_queue. rewrite mbind_get. simpl.
      by rewrite Hq.
    + rewrite execute_noresult_queue_nonempty; [done|].
      simpl. by rewrite Hq.
Qed.

Example start_new_queue :
  (noresult_timeout_check 5000 5001 new_queue).1.1
  = Raise (Exn TypeError "unsupported operand type(s) for -") /\
  noresult_timeout_check 5000 5001 (start 0 1 new_queue).1.2
  = (Ret tt, (start 0 1 new_queue).1.2, []).
Proof. vm_compute. repeat split; reflexivity. Qed.
